(** * n8n-mcp: the workflow graph handlers

    A shallow embedding of the workflow handlers of [src/index.ts] that
    carry local logic:

    - [updatePartialWorkflowHandler]: the diff-operation engine;
    - [validateWorkflowHandler]: the structural checks and the summary;
    - [autofixWorkflowHandler]: the defect detectors and the typeVersion repair;
    - [getWorkflowHandler]: the four views of a workflow;
    - [testWorkflowHandler]: the choice of the trigger and of the test;
    - [workflowVersionsHandler], [executionsHandler]: the guards in front of
      the calls they forward;

    together with the two calls of the API client they use
    ([getWorkflow], [updateWorkflow] of [services/n8n-api-client.ts]) and
    the two URLs that client computes from its configuration.

    Conventions.  A property that may be absent on a JavaScript object is an
    [option]; [None] is [undefined].  Strict equality [===] on such values is
    Leibniz equality on the option, so [undefined === undefined] holds.
    Strings are byte strings.  A handler is a function from the state of the
    remote store to a response and the next state of the store; the store
    keeps a log of the calls it served. *)

From Stdlib Require Import ZArith QArith String Ascii Lia.
From stdpp Require Import base decidable option list strings pretty gmap.

Local Open Scope string_scope.
Local Open Scope list_scope.
Local Open Scope stdpp_scope.

(** ** JavaScript primitives the handlers use *)

Module Js.

(** A JSON number. *)
Definition number := Q.

(** [s.includes(pat)]. *)
Fixpoint includes (s pat : string) : bool :=
  String.prefix pat s ||
  match s with
  | EmptyString => false
  | String _ s' => includes s' pat
  end.

(** Truthiness of an optional string: [undefined] and the empty string are
    falsy. *)
Definition truthy_string (o : option string) : bool :=
  match o with
  | Some s => negb (String.eqb s EmptyString)
  | None => false
  end.

(** Truthiness of an optional number: [undefined] and zero are falsy. *)
Definition truthy_number (o : option number) : bool :=
  match o with
  | Some q => negb (Qeq_bool q 0)
  | None => false
  end.

(** Truthiness of an optional boolean. *)
Definition truthy_bool (o : option bool) : bool :=
  match o with
  | Some b => b
  | None => false
  end.

(** [a || b] on optional strings. *)
Definition or_else (a b : option string) : option string :=
  if truthy_string a then a else b.

(** An optional string inside a template literal. *)
Definition template (o : option string) : string :=
  default "undefined" o.

(** The ASCII members of the character class [\s]: the space and the
    characters from the tab to the carriage return.  On a string of ASCII
    characters the class has no other member. *)
Definition is_space (c : ascii) : bool :=
  let n := nat_of_ascii c in
  (n =? 32)%nat || ((9 <=? n)%nat && (n <=? 13)%nat).

(** [s.toLowerCase()] on a string of ASCII characters: the letters [A] to
    [Z] are lowered and every other character is kept. *)
Definition lower (c : ascii) : ascii :=
  let n := nat_of_ascii c in
  if ((65 <=? n)%nat && (n <=? 90)%nat)%bool then ascii_of_nat (n + 32) else c.

Fixpoint toLowerCase (s : string) : string :=
  match s with
  | EmptyString => EmptyString
  | String c s' => String (lower c) (toLowerCase s')
  end.

(** [s.replace(/\s+/g, '-')]: every maximal run of white space becomes one
    hyphen.  [in_run] tells that the previous character was white space. *)
Fixpoint hyphenate_from (in_run : bool) (s : string) : string :=
  match s with
  | EmptyString => EmptyString
  | String c s' =>
      if is_space c
      then (if in_run then hyphenate_from true s'
            else String "-" (hyphenate_from true s'))
      else String c (hyphenate_from false s')
  end.

Definition hyphenate (s : string) : string := hyphenate_from false s.

(** The double quote character. *)
Definition dquote : string := String (ascii_of_nat 34) EmptyString.

End Js.

(** ** The regular expression of the expression-format detector

    [/\{\{\s*[^{=][^}]*\}\}/g]: two opening braces, white space, one
    character that is neither an opening brace nor the equals sign, any
    characters but a closing brace, two closing braces. *)

Module BadExpression.

(** [[^}]*] followed by a closing brace can only stop at the first
    closing brace. *)
Fixpoint skip_body (s : string) : string :=
  match s with
  | EmptyString => EmptyString
  | String c s' => if Ascii.eqb c "}" then s else skip_body s'
  end.

(** [[^{=][^}]*\}\}] at the head of [s]. *)
Definition tail_matches (s : string) : bool :=
  match s with
  | EmptyString => false
  | String c s' =>
      negb (Ascii.eqb c "{") && negb (Ascii.eqb c "=") &&
      String.prefix "}}" (skip_body s')
  end.

(** [\s*[^{=][^}]*\}\}] at the head of [s]: the white space may give
    characters back. *)
Fixpoint body_matches (s : string) : bool :=
  tail_matches s ||
  match s with
  | EmptyString => false
  | String c s' => Js.is_space c && body_matches s'
  end.

(** The whole expression at the head of [s]. *)
Definition matches_here (s : string) : bool :=
  match s with
  | String "{" (String "{" s') => body_matches s'
  | _ => false
  end.

(** [s.match(re)] is not [null]. *)
Fixpoint found (s : string) : bool :=
  matches_here s ||
  match s with
  | EmptyString => false
  | String _ s' => found s'
  end.

End BadExpression.

(** ** Exceptions

    A computation that may throw: [inl] carries the message of the error
    that reaches the handler's outer [catch]. *)

Abbreviation Throws A := (string + A)%type.

#[global] Instance throws_ret : MRet (sum string) := λ A a, inr a.

#[global] Instance throws_bind : MBind (sum string) :=
  λ A B f m, match m with
             | inl e => inl e
             | inr a => f a
             end.

(** A loop over [l] whose body may throw; the results are concatenated. *)
Fixpoint for_each {A B} (body : A → Throws (list B)) (l : list A) : Throws (list B) :=
  match l with
  | [] => inr []
  | x :: rest =>
      ys ← body x;
      zs ← for_each body rest;
      inr (ys ++ zs)
  end.

(** ** The graph model ([types/tools.ts]) and the handlers ([index.ts])

    A node's [parameters] are a free-form record.  The handlers observe it
    only through its serialisation [JSON.stringify(node.parameters)] and
    through the truthiness of its [path] property; both observations are
    taken as given, for an arbitrary type of parameter records. *)

Section Handlers.

(** The type of parameter records. *)
Variable Parameters : Type.

(** [JSON.stringify(p)], for a parameter record that is present. *)
Variable JSON_stringify : Parameters → string.

(** Truthiness of [p.path]. *)
Variable path_truthy : Parameters → bool.

(** [WorkflowNode].  The handlers read and write the seven properties
    below; the remaining ones ([credentials], [notes], ...) are carried
    along untouched and are left out. *)
Record WorkflowNode := mkNode {
  node_id : option string;
  node_name : option string;
  node_type : option string;
  node_typeVersion : option Js.number;
  node_position : option (list Js.number);
  node_parameters : option Parameters;
  node_disabled : option bool;
}.

(** One target of a connection group. *)
Record ConnectionTarget := mkTarget {
  target_node : string;
  target_type : string;
  target_index : nat;
}.

(** [WorkflowConnection]: source name, then output name, then the groups.
    The entries are kept in the order [Object.entries] lists them. *)
Definition WorkflowConnection : Type :=
  list (string * list (string * list (list ConnectionTarget))).

(** A value of a settings entry. *)
Inductive SettingValue :=
  | SettingString (s : string)
  | SettingNumber (q : Js.number)
  | SettingBool (b : bool).

(** [Workflow]. *)
Record Workflow := mkWorkflow {
  wf_id : option string;
  wf_name : option string;
  wf_nodes : list WorkflowNode;
  wf_connections : WorkflowConnection;
  wf_settings : option (gmap string SettingValue);
}.

Definition set_nodes (w : Workflow) (ns : list WorkflowNode) : Workflow :=
  mkWorkflow (wf_id w) (wf_name w) ns (wf_connections w) (wf_settings w).

Definition set_name (w : Workflow) (n : option string) : Workflow :=
  mkWorkflow (wf_id w) n (wf_nodes w) (wf_connections w) (wf_settings w).

Definition set_settings (w : Workflow) (s : option (gmap string SettingValue)) : Workflow :=
  mkWorkflow (wf_id w) (wf_name w) (wf_nodes w) (wf_connections w) s.

Definition set_disabled (n : WorkflowNode) (b : bool) : WorkflowNode :=
  mkNode (node_id n) (node_name n) (node_type n) (node_typeVersion n)
         (node_position n) (node_parameters n) (Some b).

Definition set_typeVersion (n : WorkflowNode) (v : Js.number) : WorkflowNode :=
  mkNode (node_id n) (node_name n) (node_type n) (Some v)
         (node_position n) (node_parameters n) (node_disabled n).

(** *** The API client

    The remote store maps workflow ids to workflows.  [getWorkflow] is the
    GET and [updateWorkflow] the PUT of [/workflows/<id>]; both answer an
    unknown id with status 404, which the client's response interceptor
    turns into the error [Resource not found: <url>]. *)

Inductive ApiCall :=
  | GetCall (id : string)
  | PutCall (id : string) (body : Workflow).

Record Remote := mkRemote {
  stored : gmap string Workflow;
  calls : list ApiCall;
}.

Definition not_found (id : string) : string :=
  "Resource not found: /workflows/" +:+ id.

Definition getWorkflow (id : string) (r : Remote) : (string + Workflow) * Remote :=
  let r' := mkRemote (stored r) (calls r ++ [GetCall id]) in
  match stored r !! id with
  | Some w => (inr w, r')
  | None => (inl (not_found id), r')
  end.

Definition updateWorkflow (id : string) (w : Workflow) (r : Remote)
  : (string + Workflow) * Remote :=
  match stored r !! id with
  | Some _ => (inr w, mkRemote (<[id := w]> (stored r)) (calls r ++ [PutCall id w]))
  | None => (inl (not_found id), mkRemote (stored r) (calls r ++ [PutCall id w]))
  end.

(** The PUT calls of a log. *)
Definition is_put (c : ApiCall) : bool :=
  match c with
  | PutCall _ _ => true
  | GetCall _ => false
  end.

Definition writes (r : Remote) : list ApiCall := filter (λ c, is_put c = true) (calls r).

(** *** Diff operations

    An operation is an object with a [type] discriminator and the fields the
    handler reads.  [op_node] is the node object an [addNode] carries; the
    other operations do not read it.  An [addNode] whose [node] is absent
    is outside this model.  [op_updates] is the patch of
    [updateNode]: a field that is [Some] overwrites the node's.  [op_extra]
    holds any further fields, which the schema passes through and the
    handler never reads (the [source] and [target] of a connection
    operation are among them). *)

Record NodePatch := mkPatch {
  patch_id : option string;
  patch_name : option string;
  patch_type : option string;
  patch_typeVersion : option Js.number;
  patch_position : option (list Js.number);
  patch_parameters : option Parameters;
  patch_disabled : option bool;
}.

Record DiffOp := mkOp {
  op_type : string;
  op_node : WorkflowNode;
  op_nodeId : option string;
  op_nodeName : option string;
  op_updates : NodePatch;
  op_name : option string;
  op_settings : option (gmap string SettingValue);
  op_extra : list (string * string);
}.

(** [{ ...a, ...b }] on one property. *)
Definition spread {A} (a b : option A) : option A :=
  match b with
  | Some v => Some v
  | None => a
  end.

(** [{ ...node, ...op.updates }]. *)
Definition merge_node (n : WorkflowNode) (p : NodePatch) : WorkflowNode :=
  mkNode (spread (node_id n) (patch_id p))
         (spread (node_name n) (patch_name p))
         (spread (node_type n) (patch_type p))
         (spread (node_typeVersion n) (patch_typeVersion p))
         (spread (node_position n) (patch_position p))
         (spread (node_parameters n) (patch_parameters p))
         (spread (node_disabled n) (patch_disabled p)).

(** [{ ...workflow.settings, ...op.settings }]: the entries of the
    operation win. *)
Definition merge_settings (a b : option (gmap string SettingValue))
  : gmap string SettingValue :=
  default ∅ b ∪ default ∅ a.

(** The predicate of the three [findIndex] calls:
    [n => n.id === op.nodeId || n.name === op.nodeName]. *)
Definition matches (op : DiffOp) (n : WorkflowNode) : Prop :=
  node_id n = op_nodeId op ∨ node_name n = op_nodeName op.

#[global] Instance matches_dec op n : Decision (matches op n).
Proof. unfold matches. apply _. Defined.

(** [workflow.nodes.findIndex(...)]; [None] is [-1]. *)
Definition findIndex (op : DiffOp) (nodes : list WorkflowNode) : option nat :=
  fst <$> list_find (matches op) nodes.

(** The records pushed on [applied] and on [failed]. *)
Record AppliedOp := mkApplied {
  applied_index : nat;
  applied_type : string;
  applied_nodeName : option string;
  applied_newName : option string;
}.

Record FailedOp := mkFailed {
  failed_index : nat;
  failed_type : string;
  failed_error : string;
}.

(** The outcome of one pass through the [switch]: the operation went
    through, giving the mutated workflow and the record for [applied], or
    it threw, with the message of the error. *)
Inductive OpResult :=
  | Applied (w : Workflow) (a : AppliedOp)
  | Thrown (message : string).

Definition node_not_found (op : DiffOp) : string :=
  "Node not found: " +:+ Js.template (Js.or_else (op_nodeId op) (op_nodeName op)).

Definition unknown_operation (op : DiffOp) : string :=
  "Unknown operation type: " +:+ op_type op.

(** The body of the [switch (op.type)] for the operation at index [i]. *)
Definition applyOperation (i : nat) (op : DiffOp) (w : Workflow) : OpResult :=
  let t := op_type op in
  if String.eqb t "addNode" then
    Applied (set_nodes w (wf_nodes w ++ [op_node op]))
            (mkApplied i t (node_name (op_node op)) None)
  else if String.eqb t "removeNode" then
    match findIndex op (wf_nodes w) with
    | Some k => Applied (set_nodes w (delete k (wf_nodes w))) (mkApplied i t None None)
    | None => Thrown (node_not_found op)
    end
  else if String.eqb t "updateNode" then
    match list_find (matches op) (wf_nodes w) with
    | Some (k, n) =>
        let n' := merge_node n (op_updates op) in
        Applied (set_nodes w (<[k := n']> (wf_nodes w))) (mkApplied i t (node_name n') None)
    | None => Thrown (node_not_found op)
    end
  else if String.eqb t "enableNode" || String.eqb t "disableNode" then
    match list_find (matches op) (wf_nodes w) with
    | Some (k, n) =>
        let n' := set_disabled n (String.eqb t "disableNode") in
        Applied (set_nodes w (<[k := n']> (wf_nodes w))) (mkApplied i t (node_name n') None)
    | None => Thrown (node_not_found op)
    end
  else if String.eqb t "addConnection" then
    Applied w (mkApplied i t None None)
  else if String.eqb t "removeConnection" then
    Applied w (mkApplied i t None None)
  else if String.eqb t "updateName" then
    Applied (set_name w (op_name op)) (mkApplied i t None (op_name op))
  else if String.eqb t "updateSettings" then
    Applied (set_settings w (Some (merge_settings (wf_settings w) (op_settings op))))
            (mkApplied i t None None)
  else
    Thrown (unknown_operation op).

(** The state of the [for] loop: the working copy and the three locals. *)
Record LoopState := mkLoop {
  workflow : Workflow;
  applied : list AppliedOp;
  failed : list FailedOp;
  modified : bool;
}.

(** The [for] loop from index [i] on.  A throw is caught, recorded on
    [failed], and ends the loop unless [continueOnError] is truthy. *)
Fixpoint runOperations (continueOnError : bool) (i : nat) (ops : list DiffOp)
    (st : LoopState) : LoopState :=
  match ops with
  | [] => st
  | op :: rest =>
      match applyOperation i op (workflow st) with
      | Applied w a =>
          runOperations continueOnError (S i) rest
            (mkLoop w (applied st ++ [a]) (failed st) true)
      | Thrown msg =>
          let st' := mkLoop (workflow st) (applied st)
                            (failed st ++ [mkFailed i (op_type op) msg]) (modified st) in
          if continueOnError then runOperations continueOnError (S i) rest st' else st'
      end
  end.

(** The arguments and the responses of [updatePartialWorkflowHandler]. *)
Record PartialUpdateArgs := mkPartialArgs {
  pu_id : string;
  pu_operations : list DiffOp;
  pu_validateOnly : option bool;
  pu_continueOnError : option bool;
}.

Inductive PartialUpdateResponse :=
  | Validated (wouldApply wouldFail : nat)
      (operations : list AppliedOp) (failures : list FailedOp)
  | Updated (workflowId : string) (applied_count failed_count : nat)
      (operations : list AppliedOp) (failures : list FailedOp) (message : string)
  | UpdateError (text : string).

Definition updatePartialWorkflowHandler (args : PartialUpdateArgs) (r : Remote)
  : PartialUpdateResponse * Remote :=
  match getWorkflow (pu_id args) r with
  | (inl e, r1) => (UpdateError ("Error updating workflow: " +:+ e), r1)
  | (inr w, r1) =>
      let st := runOperations (Js.truthy_bool (pu_continueOnError args)) 0
                  (pu_operations args) (mkLoop w [] [] false) in
      if Js.truthy_bool (pu_validateOnly args) then
        (Validated (length (applied st)) (length (failed st)) (applied st) (failed st), r1)
      else
        let done r2 :=
          (Updated (pu_id args) (length (applied st)) (length (failed st))
             (applied st) (failed st)
             ("Applied " +:+ pretty (length (applied st)) +:+ " operations to workflow"), r2) in
        if modified st then
          match updateWorkflow (pu_id args) (workflow st) r1 with
          | (inl e, r2) => (UpdateError ("Error updating workflow: " +:+ e), r2)
          | (inr _, r2) => done r2
          end
        else done r1
  end.

(** The message of the [TypeError] for reading property [p] of
    [undefined]. *)
Definition type_error (p : string) : string :=
  "Cannot read properties of undefined (reading '" +:+ p +:+ "')".

(** *** validateWorkflowHandler *)

Record ValidateOptions := mkValidateOptions {
  validateNodes : option bool;
  validateConnections : option bool;
  validateExpressions : option bool;
  profile : option string;
}.

Record ValidateArgs := mkValidateArgs {
  va_id : string;
  va_options : option ValidateOptions;
}.

(** An entry of [errors] or [warnings]: [{ node, message }] or
    [{ connection, message }]. *)
Inductive Issue :=
  | NodeIssue (node : option string) (message : string)
  | ConnectionIssue (connection : string) (message : string).

Record Summary := mkSummary {
  totalNodes : nat;
  enabledNodes : nat;
  triggerNodes : nat;
  errorCount : nat;
  warningCount : nat;
}.

Inductive ValidateResponse :=
  | ValidationReport (workflowId : string) (workflowName : option string)
      (valid : bool) (summary : Summary) (errors warnings : list Issue)
  | ValidateError (text : string).

(** [flag !== false]. *)
Definition not_false (flag : option bool) : bool :=
  match flag with
  | Some false => false
  | _ => true
  end.

(** The three error checks on one node, in the order of the source. *)
Definition node_errors (n : WorkflowNode) : list Issue :=
  (if Js.truthy_string (node_id n) then [] else [NodeIssue (node_name n) "Missing node ID"]) ++
  (if Js.truthy_string (node_name n) then [] else [NodeIssue (node_id n) "Missing node name"]) ++
  (if Js.truthy_string (node_type n) then [] else [NodeIssue (node_name n) "Missing node type"]).

(** [!node.position || node.position.length !== 2]. *)
Definition node_warnings (n : WorkflowNode) : list Issue :=
  match node_position n with
  | Some p => if (length p =? 2)%nat then [] else [NodeIssue (node_name n) "Invalid or missing position"]
  | None => [NodeIssue (node_name n) "Invalid or missing position"]
  end.

(** [nodeNames.has(s)], for [nodeNames = new Set(nodes.map(n => n.name))]. *)
Definition has_name (nodes : list WorkflowNode) (s : string) : bool :=
  bool_decide (Some s ∈ node_name <$> nodes).

Definition target_errors (nodes : list WorkflowNode) (source : string)
    (t : ConnectionTarget) : list Issue :=
  if has_name nodes (target_node t) then []
  else [ConnectionIssue (source +:+ " -> " +:+ target_node t)
          ("Target node not found: " +:+ target_node t)].

(** The body of the loop over [Object.entries(workflow.connections)]. *)
Definition source_errors (nodes : list WorkflowNode)
    (entry : string * list (string * list (list ConnectionTarget))) : list Issue :=
  let source := entry.1 in
  (if has_name nodes source then []
   else [ConnectionIssue source ("Source node not found: " +:+ source)]) ++
  concat ((λ output, concat ((λ targets, concat (target_errors nodes source <$> targets))
                               <$> output.2)) <$> entry.2).

(** The expression check: the loop serialises each node's parameters and
    matches them against [/\{\{\s*\$\w+\s*\}\}/g]; the body of its inner
    loop is empty, so the check reports nothing.  It throws on a node
    without parameters, whose serialisation is [undefined]. *)
Definition expression_check (nodes : list WorkflowNode) : Throws unit :=
  _ ← for_each (λ n, match node_parameters n with
                     | Some _ => inr ([] : list unit)
                     | None => inl (type_error "match")
                     end) nodes ;
  inr ().

(** [n.type.includes('Trigger') || n.type.includes('Webhook')]. *)
Definition is_trigger_type (t : string) : bool :=
  Js.includes t "Trigger" || Js.includes t "Webhook".

(** [workflow.nodes.filter(n => ...).length] for the trigger count; reading
    [includes] of an absent type throws. *)
Definition trigger_nodes (nodes : list WorkflowNode) : Throws (list WorkflowNode) :=
  for_each (λ n, match node_type n with
                 | Some t => inr (if is_trigger_type t then [n] else [])
                 | None => inl (type_error "includes")
                 end) nodes.

Definition enabled_nodes (nodes : list WorkflowNode) : list WorkflowNode :=
  filter (λ n, Js.truthy_bool (node_disabled n) = false) nodes.

(** The body of the handler's [try], after the fetch. *)
Definition validate (id : string) (options : ValidateOptions) (w : Workflow)
  : Throws ValidateResponse :=
  let nodes := wf_nodes w in
  let errors1 := if not_false (validateNodes options)
                 then concat (node_errors <$> nodes) else [] in
  let warnings := if not_false (validateNodes options)
                  then concat (node_warnings <$> nodes) else [] in
  let errors2 := if not_false (validateConnections options)
                 then concat (source_errors nodes <$> wf_connections w) else [] in
  let errors := errors1 ++ errors2 in
  _ ← (if not_false (validateExpressions options) then expression_check nodes else inr ()) ;
  triggers ← trigger_nodes nodes ;
  inr (ValidationReport id (wf_name w) (bool_decide (length errors = 0))
         (mkSummary (length nodes) (length (enabled_nodes nodes)) (length triggers)
                    (length errors) (length warnings))
         errors warnings).

Definition validateWorkflowHandler (args : ValidateArgs) (r : Remote)
  : ValidateResponse * Remote :=
  match getWorkflow (va_id args) r with
  | (inl e, r1) => (ValidateError ("Error validating workflow: " +:+ e), r1)
  | (inr w, r1) =>
      let options := default (mkValidateOptions None None None None) (va_options args) in
      match validate (va_id args) options w with
      | inl e => (ValidateError ("Error validating workflow: " +:+ e), r1)
      | inr report => (report, r1)
      end
  end.

(** *** autofixWorkflowHandler *)

Record AutofixArgs := mkAutofixArgs {
  af_id : string;
  af_applyFixes : option bool;
  af_fixTypes : option (list string);
  af_confidenceThreshold : option string;
  af_maxFixes : option Js.number;
}.

Record Fix := mkFix {
  fix_node : option string;
  fix_type : string;
  fix_issue : string;
  fix_fix : string;
  fix_confidence : string;
}.

Inductive AutofixResponse :=
  | AutofixReport (workflowId : string) (workflowName : option string)
      (fixesFound fixesApplied : nat) (fixes : list Fix) (message : string)
  | AutofixError (text : string).

(** Detector 1: expressions without the [=] prefix. *)
Definition expression_fixes (n : WorkflowNode) : Throws (list Fix) :=
  match node_parameters n with
  | None => inl (type_error "match")
  | Some p =>
      inr (if BadExpression.found (JSON_stringify p)
           then [mkFix (node_name n) "expression-format" "Expression missing = prefix"
                   "Add = prefix to expression" "high"]
           else [])
  end.

(** Detector 2: [!node.typeVersion]. *)
Definition typeVersion_fixes (n : WorkflowNode) : list Fix :=
  if Js.truthy_number (node_typeVersion n) then []
  else [mkFix (node_name n) "typeversion-missing" "Node missing typeVersion"
          "Add typeVersion: 1" "high"].

(** [!node.parameters?.path]. *)
Definition lacks_path (n : WorkflowNode) : bool :=
  match node_parameters n with
  | Some p => negb (path_truthy p)
  | None => true
  end.

(** Detector 3: webhook nodes without a path. *)
Definition webhook_fixes (n : WorkflowNode) : Throws (list Fix) :=
  match node_type n with
  | None => inl (type_error "includes")
  | Some t =>
      if Js.includes t "Webhook" && lacks_path n then
        match node_name n with
        | None => inl (type_error "toLowerCase")
        | Some name =>
            inr [mkFix (Some name) "webhook-missing-path" "Webhook node missing path"
                   ("Add path: " +:+ Js.dquote +:+ Js.hyphenate (Js.toLowerCase name)
                      +:+ Js.dquote)
                   "medium"]
        end
      else inr []
  end.

(** The three detector loops, one after the other. *)
Definition detect (nodes : list WorkflowNode) : Throws (list Fix) :=
  f1 ← for_each expression_fixes nodes ;
  f3 ← for_each webhook_fixes nodes ;
  inr (f1 ++ concat (typeVersion_fixes <$> nodes) ++ f3).

(** The body of the loop over [fixes]: the node is looked up by name, and
    only a fix of type [typeversion-missing] changes it. *)
Definition applyFix (st : list WorkflowNode * bool) (fx : Fix) : list WorkflowNode * bool :=
  match list_find (λ n, node_name n = fix_node fx) st.1 with
  | Some (k, n) =>
      if String.eqb (fix_type fx) "typeversion-missing"
      then (<[k := set_typeVersion n 1%Q]> st.1, true)
      else st
  | None => st
  end.

Definition applyFixes (nodes : list WorkflowNode) (fixes : list Fix)
  : list WorkflowNode * bool :=
  foldl applyFix (nodes, false) fixes.

Definition autofix_message (apply : bool) (n : nat) : string :=
  if apply then "Applied " +:+ pretty n +:+ " fixes to workflow"
  else "Found " +:+ pretty n +:+ " potential fixes. Set applyFixes=true to apply them.".

Definition autofixWorkflowHandler (args : AutofixArgs) (r : Remote)
  : AutofixResponse * Remote :=
  let error e := AutofixError ("Error autofixing workflow: " +:+ e) in
  match getWorkflow (af_id args) r with
  | (inl e, r1) => (error e, r1)
  | (inr w, r1) =>
      match detect (wf_nodes w) with
      | inl e => (error e, r1)
      | inr fixes =>
          let apply := Js.truthy_bool (af_applyFixes args) in
          let report := AutofixReport (af_id args) (wf_name w) (length fixes)
                          (if apply then length fixes else 0) fixes
                          (autofix_message apply (length fixes)) in
          if apply then
            let '(nodes, modified) := applyFixes (wf_nodes w) fixes in
            if modified then
              match updateWorkflow (af_id args) (set_nodes w nodes) r1 with
              | (inl e, r2) => (error e, r2)
              | (inr _, r2) => (report, r2)
              end
            else (report, r1)
          else (report, r1)
      end
  end.

End Handlers.

(** The type of parameter records is inferred wherever a value fixes it. *)

Arguments set_nodes {Parameters}.
Arguments set_name {Parameters}.
Arguments set_settings {Parameters}.
Arguments set_disabled {Parameters}.
Arguments set_typeVersion {Parameters}.
Arguments getWorkflow {Parameters}.
Arguments updateWorkflow {Parameters}.
Arguments is_put {Parameters}.
Arguments writes {Parameters}.
Arguments merge_node {Parameters}.
Arguments matches {Parameters}.
Arguments findIndex {Parameters}.
Arguments node_not_found {Parameters}.
Arguments unknown_operation {Parameters}.
Arguments applyOperation {Parameters}.
Arguments runOperations {Parameters}.
Arguments updatePartialWorkflowHandler {Parameters}.
Arguments node_errors {Parameters}.
Arguments node_warnings {Parameters}.
Arguments has_name {Parameters}.
Arguments target_errors {Parameters}.
Arguments source_errors {Parameters}.
Arguments expression_check {Parameters}.
Arguments trigger_nodes {Parameters}.
Arguments enabled_nodes {Parameters}.
Arguments validate {Parameters}.
Arguments validateWorkflowHandler {Parameters}.
Arguments expression_fixes {Parameters}.
Arguments typeVersion_fixes {Parameters}.
Arguments lacks_path {Parameters}.
Arguments webhook_fixes {Parameters}.
Arguments detect {Parameters}.
Arguments applyFix {Parameters}.
Arguments applyFixes {Parameters}.
Arguments autofixWorkflowHandler {Parameters}.
Arguments mkNode {Parameters}.
Arguments node_id {Parameters}.
Arguments node_name {Parameters}.
Arguments node_type {Parameters}.
Arguments node_typeVersion {Parameters}.
Arguments node_position {Parameters}.
Arguments node_parameters {Parameters}.
Arguments node_disabled {Parameters}.
Arguments mkWorkflow {Parameters}.
Arguments wf_id {Parameters}.
Arguments wf_name {Parameters}.
Arguments wf_nodes {Parameters}.
Arguments wf_connections {Parameters}.
Arguments wf_settings {Parameters}.
Arguments GetCall {Parameters}.
Arguments PutCall {Parameters}.
Arguments mkRemote {Parameters}.
Arguments stored {Parameters}.
Arguments calls {Parameters}.
Arguments mkPatch {Parameters}.
Arguments patch_id {Parameters}.
Arguments patch_name {Parameters}.
Arguments patch_type {Parameters}.
Arguments patch_typeVersion {Parameters}.
Arguments patch_position {Parameters}.
Arguments patch_parameters {Parameters}.
Arguments patch_disabled {Parameters}.
Arguments mkOp {Parameters}.
Arguments op_type {Parameters}.
Arguments op_node {Parameters}.
Arguments op_nodeId {Parameters}.
Arguments op_nodeName {Parameters}.
Arguments op_updates {Parameters}.
Arguments op_name {Parameters}.
Arguments op_settings {Parameters}.
Arguments op_extra {Parameters}.
Arguments Applied {Parameters}.
Arguments Thrown {Parameters}.
Arguments mkLoop {Parameters}.
Arguments workflow {Parameters}.
Arguments applied {Parameters}.
Arguments failed {Parameters}.
Arguments modified {Parameters}.
Arguments mkPartialArgs {Parameters}.
Arguments pu_id {Parameters}.
Arguments pu_operations {Parameters}.
Arguments pu_validateOnly {Parameters}.
Arguments pu_continueOnError {Parameters}.

(** ** The other workflow handlers of [index.ts] *)

Section MoreHandlers.

(** The type of parameter records, as above. *)
Variable Parameters : Type.

(** Truthiness of [p.path], and the text [p.path] gives inside a template
    literal. *)
Variable path_truthy : Parameters → bool.
Variable path_text : Parameters → string.

(** [process.env.N8N_HOST]. *)
Variable N8N_HOST : option string.

(** *** getWorkflowHandler

    The handler starts from the arguments the Zod validation returns (the
    helper [validate] and the id schema are in [validation/base.ts]): an id
    and one of the four modes of [GetWorkflowSchema], [full] by default. *)

Inductive GetMode :=
  | ModeFull
  | ModeDetails
  | ModeStructure
  | ModeMinimal.

Record GetWorkflowArgs := mkGetArgs {
  gw_id : string;
  gw_mode : GetMode;
}.

(** What the [structure] mode keeps of a node. *)
Record NodeOutline := mkOutline {
  outline_id : option string;
  outline_name : option string;
  outline_type : option string;
  outline_position : option (list Js.number);
  outline_disabled : option bool;
}.

Definition outline (n : WorkflowNode Parameters) : NodeOutline :=
  mkOutline (node_id n) (node_name n) (node_type n) (node_position n) (node_disabled n).

(** The object the handler serialises.  The [minimal] mode also copies
    [active], [tags], [createdAt] and [updatedAt], which [Workflow] leaves
    out. *)
Inductive GetResult :=
  | MinimalResult (id name : option string)
  | StructureResult (id name : option string) (nodes : list NodeOutline)
      (connections : WorkflowConnection)
  | DetailsResult (w : Workflow Parameters) (nodeCount triggerNodes : nat)
  | FullResult (w : Workflow Parameters).

Inductive GetResponse :=
  | GetOk (result : GetResult)
  | GetError (text : string).

(** The filter of the [details] mode:
    [n.type.includes('Trigger') || n.type.includes('Webhook') || n.type.includes('Schedule')]. *)
Definition is_details_trigger_type (t : string) : bool :=
  Js.includes t "Trigger" || Js.includes t "Webhook" || Js.includes t "Schedule".

Definition details_trigger_nodes (nodes : list (WorkflowNode Parameters))
  : Throws (list (WorkflowNode Parameters)) :=
  for_each (λ n, match node_type n with
                 | Some t => inr (if is_details_trigger_type t then [n] else [])
                 | None => inl (type_error "includes")
                 end) nodes.

(** The [switch (mode)]. *)
Definition get_result (mode : GetMode) (w : Workflow Parameters) : Throws GetResult :=
  match mode with
  | ModeMinimal => inr (MinimalResult (wf_id w) (wf_name w))
  | ModeStructure =>
      inr (StructureResult (wf_id w) (wf_name w) (outline <$> wf_nodes w) (wf_connections w))
  | ModeDetails =>
      triggers ← details_trigger_nodes (wf_nodes w);
      inr (DetailsResult w (length (wf_nodes w)) (length triggers))
  | ModeFull => inr (FullResult w)
  end.

Definition getWorkflowHandler (args : GetWorkflowArgs) (r : Remote Parameters)
  : GetResponse * Remote Parameters :=
  match getWorkflow (gw_id args) r with
  | (inl e, r1) => (GetError ("Error getting workflow: " +:+ e), r1)
  | (inr w, r1) =>
      match get_result (gw_mode args) w with
      | inl e => (GetError ("Error getting workflow: " +:+ e), r1)
      | inr result => (GetOk result, r1)
      end
  end.

(** *** testWorkflowHandler

    Of the arguments the handler reads [workflowId], [triggerType],
    [httpMethod], [message] and [sessionId]. *)

Record TestWorkflowArgs := mkTestArgs {
  tw_workflowId : string;
  tw_triggerType : option string;
  tw_httpMethod : option string;
  tw_message : option string;
  tw_sessionId : option string;
}.

(** The predicate of [workflow.nodes.find]. *)
Definition is_external_trigger_type (t : string) : bool :=
  Js.includes t "Trigger" || Js.includes t "Webhook" ||
  Js.includes t "Form" || Js.includes t "Chat".

(** [workflow.nodes.find(...)]: the first node whose type passes the test;
    reading [includes] of an absent type throws. *)
Fixpoint find_trigger (nodes : list (WorkflowNode Parameters))
  : Throws (option (WorkflowNode Parameters * string)) :=
  match nodes with
  | [] => inr None
  | n :: rest =>
      match node_type n with
      | None => inl (type_error "includes")
      | Some t => if is_external_trigger_type t then inr (Some (n, t)) else find_trigger rest
      end
  end.

(** The trigger type read off the type of the trigger node. *)
Definition detected_trigger_type (t : string) : string :=
  if Js.includes t "Webhook" then "webhook"
  else if Js.includes t "Form" then "form"
  else if Js.includes t "Chat" then "chat"
  else "webhook".

(** [triggerNode.parameters?.path || args.workflowId], as text. *)
Definition webhook_path (n : WorkflowNode Parameters) (workflowId : string) : string :=
  match node_parameters n with
  | Some p => if path_truthy p then path_text p else workflowId
  | None => workflowId
  end.

(** The object [triggerInfo], before the response overrides [message]. *)
Record TriggerInfo := mkTriggerInfo {
  ti_workflowId : string;
  ti_workflowName : option string;
  ti_triggerType : string;
  ti_triggerNode : option string;
  ti_webhookUrl : option string;
  ti_method : option string;
  ti_message : option string;
  ti_sessionId : option string;
}.

Definition trigger_info (args : TestWorkflowArgs) (w : Workflow Parameters)
    (n : WorkflowNode Parameters) (t : string) : TriggerInfo :=
  let triggerType :=
    if Js.truthy_string (tw_triggerType args)
    then default EmptyString (tw_triggerType args)
    else detected_trigger_type t in
  if String.eqb triggerType "webhook" then
    mkTriggerInfo (tw_workflowId args) (wf_name w) triggerType (node_name n)
      (Some (Js.template N8N_HOST +:+ "/webhook/" +:+ webhook_path n (tw_workflowId args)))
      (Some (if Js.truthy_string (tw_httpMethod args)
             then default EmptyString (tw_httpMethod args) else "POST"))
      None None
  else if String.eqb triggerType "chat" then
    mkTriggerInfo (tw_workflowId args) (wf_name w) triggerType (node_name n)
      None None (tw_message args) (tw_sessionId args)
  else
    mkTriggerInfo (tw_workflowId args) (wf_name w) triggerType (node_name n)
      None None None None.

(** The response: [{ ...triggerInfo, message, note }]. *)
Inductive TestResponse :=
  | TestPrepared (info : TriggerInfo) (note : string)
  | TestError (text : string).

Definition prepared_message (w : Workflow Parameters) : string :=
  "Test execution prepared for workflow " +:+ Js.dquote +:+ Js.template (wf_name w)
    +:+ Js.dquote.

Definition no_trigger_message (workflowId : string) : string :=
  "Workflow " +:+ workflowId +:+
  " does not have an external trigger node. Only workflows with Webhook, Form, or Chat triggers can be executed externally.".

Definition set_message (info : TriggerInfo) (message : string) : TriggerInfo :=
  mkTriggerInfo (ti_workflowId info) (ti_workflowName info) (ti_triggerType info)
    (ti_triggerNode info) (ti_webhookUrl info) (ti_method info) (Some message)
    (ti_sessionId info).

Definition testWorkflowHandler (args : TestWorkflowArgs) (r : Remote Parameters)
  : TestResponse * Remote Parameters :=
  match getWorkflow (tw_workflowId args) r with
  | (inl e, r1) => (TestError ("Error testing workflow: " +:+ e), r1)
  | (inr w, r1) =>
      match find_trigger (wf_nodes w) with
      | inl e => (TestError ("Error testing workflow: " +:+ e), r1)
      | inr None => (TestError (no_trigger_message (tw_workflowId args)), r1)
      | inr (Some (n, t)) =>
          (TestPrepared (set_message (trigger_info args w n t) (prepared_message w))
             "To actually execute, send a request to the webhook URL or use the n8n UI",
           r1)
      end
  end.

End MoreHandlers.

(** ** The version and execution handlers

    These two handlers only guard their arguments and forward to the API
    client.  The remote side is an oracle [answer], which gives for each
    call of the client the data it returns or the message of the error it
    throws; a handler returns its response and the calls it made.
    [show_number] is the text of a number inside a template literal. *)

Section Forwarding.

(** What the remote returns: opaque JSON. *)
Variable Data : Type.

Record ListExecutionsOptions := mkListExecutions {
  le_limit : option Js.number;
  le_cursor : option string;
  le_workflowId : option string;
  le_status : option string;
  le_includeData : option bool;
}.

(** The methods of [N8nApiClient] the two handlers call. *)
Inductive ClientCall :=
  | ListWorkflowVersions (workflowId : string) (limit : Js.number)
  | GetWorkflowVersion (workflowId : string) (versionId : Js.number)
  | RollbackWorkflowVersion (workflowId : string) (versionId : Js.number)
  | ListExecutions (options : ListExecutionsOptions)
  | GetExecution (id : string) (includeData : option bool)
  | DeleteExecution (id : string).

Variable answer : ClientCall → Throws Data.
Variable show_number : Js.number → string.

(** [x || d] on optional numbers. *)
Definition number_or (x : option Js.number) (d : Js.number) : Js.number :=
  if Js.truthy_number x then default d x else d.

(** *** workflowVersionsHandler *)

Record VersionsArgs := mkVersionsArgs {
  wv_mode : string;
  wv_workflowId : option string;
  wv_versionId : option Js.number;
  wv_limit : option Js.number;
  wv_confirmTruncate : option bool;
}.

Inductive VersionsResponse :=
  | VersionList (workflowId : string) (versions : Data)
  | VersionDetails (version : Data)
  | RolledBack (workflowId : string) (versionId : option Js.number) (message : string)
  | Truncated (message : string)
  | VersionsError (text : string).

(** A call inside the handler's [try]: an error of the client becomes the
    handler's error response. *)
Definition versions_call (c : ClientCall) (k : Data → VersionsResponse)
  : VersionsResponse * list ClientCall :=
  match answer c with
  | inl e => (VersionsError ("Error managing workflow versions: " +:+ e), [c])
  | inr d => (k d, [c])
  end.

Definition workflowVersionsHandler (args : VersionsArgs)
  : VersionsResponse * list ClientCall :=
  let mode := wv_mode args in
  let id := default EmptyString (wv_workflowId args) in
  if String.eqb mode "list" then
    if Js.truthy_string (wv_workflowId args) then
      versions_call (ListWorkflowVersions id (number_or (wv_limit args) 10%Q))
        (λ versions, VersionList id versions)
    else (VersionsError "Error: workflowId is required for list mode", [])
  else if String.eqb mode "get" then
    match Js.truthy_string (wv_workflowId args), wv_versionId args with
    | true, Some v => versions_call (GetWorkflowVersion id v) VersionDetails
    | _, _ =>
        (VersionsError "Error: workflowId and versionId are required for get mode", [])
    end
  else if String.eqb mode "rollback" then
    if Js.truthy_string (wv_workflowId args) then
      versions_call (RollbackWorkflowVersion id (number_or (wv_versionId args) 0%Q))
        (λ _, RolledBack id (wv_versionId args)
                ("Workflow rolled back to version " +:+
                 (if Js.truthy_number (wv_versionId args)
                  then show_number (default 0%Q (wv_versionId args))
                  else "previous")))
    else (VersionsError "Error: workflowId is required for rollback mode", [])
  else if String.eqb mode "truncate" then
    if Js.truthy_bool (wv_confirmTruncate args) then (Truncated "All versions truncated", [])
    else (VersionsError
            "Error: confirmTruncate must be true to truncate all versions. This is a destructive operation.",
          [])
  else (VersionsError ("Mode " +:+ mode +:+ " not fully implemented yet"), []).

(** *** executionsHandler *)

Record ExecutionsArgs := mkExecutionsArgs {
  ex_action : string;
  ex_id : option string;
  ex_limit : option Js.number;
  ex_cursor : option string;
  ex_workflowId : option string;
  ex_status : option string;
  ex_includeData : option bool;
}.

Inductive ExecutionsResponse :=
  | ExecutionList (result : Data)
  | ExecutionDetails (execution : Data)
  | ExecutionDeleted (executionId : string) (message : string)
  | ExecutionsError (text : string).

Definition executions_call (c : ClientCall) (k : Data → ExecutionsResponse)
  : ExecutionsResponse * list ClientCall :=
  match answer c with
  | inl e => (ExecutionsError ("Error managing executions: " +:+ e), [c])
  | inr d => (k d, [c])
  end.

Definition executionsHandler (args : ExecutionsArgs)
  : ExecutionsResponse * list ClientCall :=
  let action := ex_action args in
  let id := default EmptyString (ex_id args) in
  if String.eqb action "list" then
    executions_call
      (ListExecutions (mkListExecutions (ex_limit args) (ex_cursor args)
                         (ex_workflowId args) (ex_status args) (ex_includeData args)))
      ExecutionList
  else if String.eqb action "get" then
    if Js.truthy_string (ex_id args) then
      executions_call (GetExecution id (ex_includeData args)) ExecutionDetails
    else (ExecutionsError "Error: id is required for get action", [])
  else if String.eqb action "delete" then
    if Js.truthy_string (ex_id args) then
      executions_call (DeleteExecution id)
        (λ _, ExecutionDeleted id ("Execution " +:+ id +:+ " deleted"))
    else (ExecutionsError "Error: id is required for delete action", [])
  else (ExecutionsError ("Unknown action: " +:+ action), []).

End Forwarding.

Arguments outline {Parameters}.
Arguments MinimalResult {Parameters}.
Arguments StructureResult {Parameters}.
Arguments DetailsResult {Parameters}.
Arguments FullResult {Parameters}.
Arguments GetOk {Parameters}.
Arguments GetError {Parameters}.
Arguments details_trigger_nodes {Parameters}.
Arguments get_result {Parameters}.
Arguments getWorkflowHandler {Parameters}.
Arguments find_trigger {Parameters}.
Arguments webhook_path {Parameters}.
Arguments trigger_info {Parameters}.
Arguments prepared_message {Parameters}.
Arguments testWorkflowHandler {Parameters}.
Arguments VersionList {Data}.
Arguments VersionDetails {Data}.
Arguments RolledBack {Data}.
Arguments Truncated {Data}.
Arguments VersionsError {Data}.
Arguments versions_call {Data}.
Arguments workflowVersionsHandler {Data}.
Arguments ExecutionList {Data}.
Arguments ExecutionDetails {Data}.
Arguments ExecutionDeleted {Data}.
Arguments ExecutionsError {Data}.
Arguments executions_call {Data}.
Arguments executionsHandler {Data}.

(** ** The base URL of the API client ([services/n8n-api-client.ts]) *)

Module Url.

(** [s.endsWith(suffix)]. *)
Fixpoint endsWith (s suffix : string) : bool :=
  String.eqb s suffix ||
  match s with
  | EmptyString => false
  | String _ s' => endsWith s' suffix
  end.

(** [s.replace(/\/$/, '')]: one slash at the end is removed. *)
Fixpoint strip_slash (s : string) : string :=
  match s with
  | EmptyString => EmptyString
  | String c s' =>
      match s' with
      | EmptyString => if Ascii.eqb c "/" then EmptyString else s
      | String _ _ => String c (strip_slash s')
      end
  end.

(** The [apiUrl] the constructor computes from [config.baseUrl]. *)
Definition apiUrl (baseUrl : string) : string :=
  if endsWith baseUrl "/api/v1" then baseUrl
  else strip_slash baseUrl +:+ "/api/v1".

End Url.

Module Healthz.

(** The character class [\d]. *)
Definition is_digit (c : ascii) : bool :=
  let n := nat_of_ascii c in (48 <=? n)%nat && (n <=? 57)%nat.

(** [\d*\/?$] at the head of [s]. *)
Fixpoint digits_to_end (s : string) : bool :=
  match s with
  | EmptyString => true
  | String c s' =>
      if is_digit c then digits_to_end s'
      else Ascii.eqb c "/" && String.eqb s' EmptyString
  end.

(** [\/api\/v\d+\/?$] at the head of [s]. *)
Definition suffix_here (s : string) : bool :=
  match s with
  | String "/" (String "a" (String "p" (String "i" (String "/" (String "v"
      (String d rest)))))) => is_digit d && digits_to_end rest
  | _ => false
  end.

(** [s.replace(/\/api\/v\d+\/?$/, '')]: the leftmost match is removed. *)
Fixpoint strip_api (s : string) : string :=
  if suffix_here s then EmptyString
  else match s with
       | EmptyString => EmptyString
       | String c s' => String c (strip_api s')
       end.

(** The URL [healthCheck] tries first. *)
Definition healthzUrl (originalBaseUrl : string) : string :=
  Url.strip_slash (strip_api originalBaseUrl) +:+ "/healthz".

End Healthz.

(** ** Vocabulary of the statements *)

(** [pat] occurs in [s]. *)
Definition contains (s pat : string) : Prop :=
  ∃ pre post, s = pre +:+ pat +:+ post.

(** The operation at index [i] acts on the node [n] at position [k] of the
    working copy [w]: a [removeNode] deletes it, an [updateNode] merges the
    patch over it, an [enableNode] or a [disableNode] sets its [disabled]
    flag, and the operation is recorded on [applied]. *)
Definition acts_on {P} (i : nat) (op : DiffOp P) (w : Workflow P)
    (k : nat) (n : WorkflowNode P) : Prop :=
  (op_type op = "removeNode" →
     applyOperation i op w =
     Applied (set_nodes w (delete k (wf_nodes w))) (mkApplied i "removeNode" None None)) ∧
  (op_type op = "updateNode" →
     applyOperation i op w =
     Applied (set_nodes w (<[k := merge_node n (op_updates op)]> (wf_nodes w)))
             (mkApplied i "updateNode" (node_name (merge_node n (op_updates op))) None)) ∧
  (op_type op = "enableNode" →
     applyOperation i op w =
     Applied (set_nodes w (<[k := set_disabled n false]> (wf_nodes w)))
             (mkApplied i "enableNode" (node_name n) None)) ∧
  (op_type op = "disableNode" →
     applyOperation i op w =
     Applied (set_nodes w (<[k := set_disabled n true]> (wf_nodes w)))
             (mkApplied i "disableNode" (node_name n) None)).

(** The state in which the loop of [updatePartialWorkflowHandler] ends. *)
Definition final_state {P} (args : PartialUpdateArgs P) (w : Workflow P) : LoopState P :=
  runOperations (Js.truthy_bool (pu_continueOnError args)) 0 (pu_operations args)
    (mkLoop w [] [] false).

(** The indices of the operations recorded so far, on either list. *)
Definition indices {P} (st : LoopState P) : list nat :=
  (applied_index <$> applied st) ++ (failed_index <$> failed st).

(** The store after one more GET of [id]. *)
Definition fetched {P} (id : string) (r : Remote P) : Remote P :=
  mkRemote (stored r) (calls r ++ [GetCall id]).

(** The test of the trigger count on a node that has a type. *)
Definition counted_as_trigger {P} (n : WorkflowNode P) : bool :=
  match node_type n with
  | Some t => is_trigger_type t
  | None => false
  end.

(** The node without its [typeVersion]. *)
Definition forget_typeVersion {P} (n : WorkflowNode P) : WorkflowNode P :=
  mkNode (node_id n) (node_name n) (node_type n) None
         (node_position n) (node_parameters n) (node_disabled n).

(** The node after the typeVersion repair: a falsy [typeVersion] becomes 1. *)
Definition repair {P} (n : WorkflowNode P) : WorkflowNode P :=
  if Js.truthy_number (node_typeVersion n) then n else set_typeVersion n 1%Q.

(** The finding is of type [typeversion-missing]. *)
Definition typeVersion_finding (f : Fix) : Prop :=
  fix_type f = "typeversion-missing".

(** No node before position [k] carries the name of the node at [k]. *)
Definition first_of_its_name {P} (nodes : list (WorkflowNode P)) (k : nat) : Prop :=
  ∃ n, nodes !! k = Some n ∧
       ∀ j m, j < k → nodes !! j = Some m → node_name m ≠ node_name n.

(** A finding of type [typeversion-missing] names [name]. *)
Definition flagged (fixes : list Fix) (name : option string) : Prop :=
  ∃ f, f ∈ fixes ∧ typeVersion_finding f ∧ fix_node f = name.

(** The node at position [k] is the first of its name and a finding of type
    [typeversion-missing] names it. *)
Definition given_typeVersion {P} (fixes : list Fix) (nodes : list (WorkflowNode P))
    (k : nat) : Prop :=
  first_of_its_name nodes k ∧ ∃ n, nodes !! k = Some n ∧ flagged fixes (node_name n).

(** The number of records of type [t]. *)
Definition count_type (t : string) (l : list AppliedOp) : nat :=
  length (filter (λ a, applied_type a = t) l).

(** A property that is present and not the empty string. *)
Definition present (o : option string) : Prop :=
  ∃ s, o = Some s ∧ s ≠ EmptyString.

(** A node with an id, a name and a type. *)
Definition node_complete {P} (n : WorkflowNode P) : Prop :=
  present (node_id n) ∧ present (node_name n) ∧ present (node_type n).

(** Every source and every target of the connections is the name of a node. *)
Definition connections_closed {P} (nodes : list (WorkflowNode P))
    (connections : WorkflowConnection) : Prop :=
  ∀ source outputs, (source, outputs) ∈ connections →
    Some source ∈ node_name <$> nodes ∧
    ∀ output groups group t,
      (output, groups) ∈ outputs → group ∈ groups → t ∈ group →
      Some (target_node t) ∈ node_name <$> nodes.

(** The options in force: [args.options || {}]. *)
Definition options_of (args : ValidateArgs) : ValidateOptions :=
  default (mkValidateOptions None None None None) (va_options args).

(** Every character of [s] satisfies [p]. *)
Fixpoint all_chars (p : ascii → bool) (s : string) : bool :=
  match s with
  | EmptyString => true
  | String c s' => p c && all_chars p s'
  end.

(** The language of [/\{\{\s*[^{=][^}]*\}\}/], anywhere in [s]. *)
Definition has_unprefixed_expression (s : string) : Prop :=
  ∃ pre ws c body post,
    s = pre +:+ "{{" +:+ ws +:+ String c (body +:+ "}}" +:+ post) ∧
    all_chars Js.is_space ws = true ∧
    c ≠ "{"%char ∧ c ≠ "="%char ∧
    all_chars (λ x, negb (Ascii.eqb x "}")) body = true.

(** A node the [details] mode counts and the validation summary does not. *)
Definition schedule_only {P} (n : WorkflowNode P) : bool :=
  match node_type n with
  | Some t => Js.includes t "Schedule" && negb (is_trigger_type t)
  | None => false
  end.

(** A node whose type contains none of the four markers of
    [testWorkflowHandler]. *)
Definition no_external_trigger {P} (n : WorkflowNode P) : Prop :=
  ∃ t, node_type n = Some t ∧
       ¬ contains t "Trigger" ∧ ¬ contains t "Webhook" ∧
       ¬ contains t "Form" ∧ ¬ contains t "Chat".

(** An upper-case ASCII letter. *)
Definition is_upper (c : ascii) : bool :=
  let n := nat_of_ascii c in (65 <=? n)%nat && (n <=? 90)%nat.

(** A string of ASCII characters. *)
Definition ascii_only (s : string) : bool :=
  all_chars (λ c, (nat_of_ascii c <? 128)%nat) s.

(** The path the webhook finding proposes for a node named [name]. *)
Definition proposed_path (name : string) : string :=
  Js.hyphenate (Js.toLowerCase name).

(** ** Sample data *)

Module Sample.

(** Three parameter records and what [JSON.stringify] and [.path] give on
    them: [{}], [{"url":"{{ $json.url }}"}] and [{"path":"hook"}]. *)
Inductive Params :=
  | NoParams
  | UrlExpression
  | HookPath.

Definition quoted (s : string) : string := Js.dquote +:+ s +:+ Js.dquote.

Definition stringify (p : Params) : string :=
  match p with
  | NoParams => "{}"
  | UrlExpression => "{" +:+ quoted "url" +:+ ":" +:+ quoted "{{ $json.url }}" +:+ "}"
  | HookPath => "{" +:+ quoted "path" +:+ ":" +:+ quoted "hook" +:+ "}"
  end.

Definition has_path (p : Params) : bool :=
  match p with
  | HookPath => true
  | _ => false
  end.

(** A complete node. *)
Definition node (id name type : string) : WorkflowNode Params :=
  mkNode (Some id) (Some name) (Some type) (Some 1%Q) (Some [0%Q; 0%Q]) (Some NoParams) None.

(** The node [{ id, name }] of the examples of section 8 of the specification. *)
Definition bare (id name : string) : WorkflowNode Params :=
  mkNode (Some id) (Some name) None None None None None.

Definition no_node : WorkflowNode Params := mkNode None None None None None None None.

Definition no_patch : NodePatch Params := mkPatch None None None None None None None.

(** An operation [{ type, nodeId, nodeName }]. *)
Definition op (type : string) (nodeId nodeName : option string) : DiffOp Params :=
  mkOp type no_node nodeId nodeName no_patch None None [].

(** An operation [{ type, source, target }]. *)
Definition connection_op (type source target : string) : DiffOp Params :=
  mkOp type no_node None None no_patch None None [("source", source); ("target", target)].

Definition graph (nodes : list (WorkflowNode Params)) (connections : WorkflowConnection)
  : Workflow Params :=
  mkWorkflow (Some "wf1") (Some "Sample") nodes connections None.

(** A store that holds [w] under the id [wf1] and has served no call. *)
Definition remote (w : Workflow Params) : Remote Params :=
  mkRemote {[ "wf1" := w ]} [].

Definition batch (ops : list (DiffOp Params)) (validateOnly continueOnError : option bool)
  : PartialUpdateArgs Params :=
  mkPartialArgs "wf1" ops validateOnly continueOnError.

(** One connection from [source] to [target] on the [main] output. *)
Definition link (source target : string) : WorkflowConnection :=
  [(source, [("main", [[mkTarget target "main" 0]])])].

End Sample.

(** The text of a sample path. *)
Module MoreSamples.

(** The text of [.path] on the sample parameter records. *)
Definition path_text (p : Sample.Params) : string :=
  match p with
  | Sample.HookPath => "hook"
  | _ => EmptyString
  end.

End MoreSamples.


(** ** The operation engine *)

Section Engine.

Context {P : Type}.
Implicit Types (op : DiffOp P) (w : Workflow P) (n m : WorkflowNode P).
Implicit Types (nodes : list (WorkflowNode P)) (st : LoopState P) (r : Remote P).

(** [findIndex] returns the first position at which the predicate holds. *)
Lemma first_match op nodes k n :
  nodes !! k = Some n →
  matches op n →
  (∀ j m, j < k → nodes !! j = Some m → ¬ matches op m) →
  list_find (matches op) nodes = Some (k, n).
Proof.
  intros Hk Hn Hbefore. apply list_find_Some. split_and!; [done..|].
  intros j m Hj Hlt. by apply (Hbefore j m).
Qed.

(** The four node operations act on the node the lookup returns. *)
Lemma acts_on_found i op w k n :
  list_find (matches op) (wf_nodes w) = Some (k, n) → acts_on i op w k n.
Proof.
  intros Hfind. unfold acts_on, applyOperation, findIndex.
  split_and!; intros ->; rewrite Hfind; reflexivity.
Qed.

(** A failed lookup throws. *)
Lemma lookup_fails i op w :
  list_find (matches op) (wf_nodes w) = None →
  op_type op = "removeNode" ∨ op_type op = "updateNode" ∨
  op_type op = "enableNode" ∨ op_type op = "disableNode" →
  applyOperation i op w = Thrown (node_not_found op).
Proof.
  intros Hfind Ht. unfold applyOperation, findIndex.
  destruct Ht as [-> | [-> | [-> | ->]]]; rewrite Hfind; reflexivity.
Qed.

(** No operation touches the connections. *)
Lemma applyOperation_connections i op w w' a :
  applyOperation i op w = Applied w' a → wf_connections w' = wf_connections w.
Proof.
  unfold applyOperation, findIndex. intros H.
  repeat (case_match; simplify_eq/=; try done).
Qed.

Lemma runOperations_connections c ops i st :
  wf_connections (workflow (runOperations c i ops st)) = wf_connections (workflow st).
Proof.
  revert i st. induction ops as [|op ops IH]; intros i st; simpl; [done|].
  destruct (applyOperation i op (workflow st)) as [w' a|msg] eqn:Hop.
  - rewrite IH. simpl. by eapply applyOperation_connections.
  - destruct c; [by rewrite IH|done].
Qed.

(** Under [continueOnError] every operation adds one record to one of the
    two lists. *)
Lemma runOperations_partition ops i st :
  length (applied (runOperations true i ops st)) +
  length (failed (runOperations true i ops st)) =
  length (applied st) + length (failed st) + length ops.
Proof.
  revert i st. induction ops as [|op ops IH]; intros i st; simpl; [lia|].
  destruct (applyOperation i op (workflow st)); rewrite IH; simpl;
    rewrite length_app; simpl; lia.
Qed.

(** The record of an operation that went through carries its index. *)
Lemma applyOperation_index i op w w' a :
  applyOperation i op w = Applied w' a → applied_index a = i.
Proof.
  unfold applyOperation, findIndex. intros H.
  repeat (case_match; simplify_eq/=; try done).
Qed.

(** Under [continueOnError] the loop records each index from [i] on once. *)
Lemma runOperations_indices ops i st :
  indices (runOperations true i ops st) ≡ₚ indices st ++ seq i (length ops).
Proof.
  revert i st. induction ops as [|op ops IH]; intros i st; simpl.
  - by rewrite app_nil_r.
  - destruct (applyOperation i op (workflow st)) as [w' a|msg] eqn:Hop; rewrite IH;
      unfold indices; simpl; rewrite fmap_app; simpl.
    + rewrite (applyOperation_index _ _ _ _ _ Hop). solve_Permutation.
    + solve_Permutation.
Qed.

(** The handler, once the fetch has succeeded. *)
Lemma handler_fetched (args : PartialUpdateArgs P) r w :
  stored r !! pu_id args = Some w →
  updatePartialWorkflowHandler args r =
  let st := final_state args w in
  let r1 := fetched (pu_id args) r in
  if Js.truthy_bool (pu_validateOnly args) then
    (Validated (length (applied st)) (length (failed st)) (applied st) (failed st), r1)
  else
    (Updated (pu_id args) (length (applied st)) (length (failed st)) (applied st) (failed st)
       ("Applied " +:+ pretty (length (applied st)) +:+ " operations to workflow"),
     if modified st
     then mkRemote (<[pu_id args := workflow st]> (stored r))
                   (calls r ++ [GetCall (pu_id args)] ++ [PutCall (pu_id args) (workflow st)])
     else r1).
Proof.
  intros Hw. unfold updatePartialWorkflowHandler, getWorkflow, final_state, fetched.
  rewrite Hw. simpl. destruct (Js.truthy_bool (pu_validateOnly args)); [done|].
  destruct (modified _); [|done].
  unfold updateWorkflow. simpl. rewrite Hw. simpl. by rewrite <- (assoc_L (++)).
Qed.

(** The handler, when the store does not know the id. *)
Lemma handler_not_fetched (args : PartialUpdateArgs P) r :
  stored r !! pu_id args = None →
  updatePartialWorkflowHandler args r =
  (UpdateError ("Error updating workflow: " +:+ not_found (pu_id args)),
   fetched (pu_id args) r).
Proof.
  intros Hw. unfold updatePartialWorkflowHandler, getWorkflow, fetched. by rewrite Hw.
Qed.

End Engine.

(** C1.  The claim: an [addConnection] puts the specified entry into the
    connections mapping, a [removeConnection] takes it out, and the
    operation is recorded on [applied].  The code at two concrete batches:
    the [addConnection] from [A] to [B] on a graph without connections is
    recorded as applied and the graph is written back, yet the connections
    written are still empty; the [removeConnection] of the one connection
    from [A] to [B] is recorded as applied and written back, yet the
    connection is still there. *)
Theorem C1_connection_operations_at_failing_input :
  let nodes := [Sample.node "a" "A" "n8n-nodes-base.set";
                Sample.node "b" "B" "n8n-nodes-base.set"] in
  let w0 := Sample.graph nodes [] in
  let w1 := Sample.graph nodes (Sample.link "A" "B") in
  let add := updatePartialWorkflowHandler
               (Sample.batch [Sample.connection_op "addConnection" "A" "B"] None None)
               (Sample.remote w0) in
  let remove := updatePartialWorkflowHandler
                  (Sample.batch [Sample.connection_op "removeConnection" "A" "B"] None None)
                  (Sample.remote w1) in
  (add.1 = Updated "wf1" 1 0 [mkApplied 0 "addConnection" None None] []
             "Applied 1 operations to workflow" ∧
   writes add.2 = [PutCall "wf1" w0] ∧
   wf_connections <$> stored add.2 !! "wf1" = Some []) ∧
  (remove.1 = Updated "wf1" 1 0 [mkApplied 0 "removeConnection" None None] []
                "Applied 1 operations to workflow" ∧
   writes remove.2 = [PutCall "wf1" w1] ∧
   wf_connections <$> stored remove.2 !! "wf1" = Some (Sample.link "A" "B")).
Proof. vm_compute. done. Qed.

(** C2, as stated, fails.  The node [b] matches the operation by id and the
    node [a], which precedes it, matches by name only: the [removeNode]
    deletes [a] and keeps [b]. *)
Lemma C2_counterexample :
  let a := Sample.node "a" "X" "n8n-nodes-base.set" in
  let b := Sample.node "b" "Y" "n8n-nodes-base.set" in
  let op := Sample.op "removeNode" (Some "b") (Some "X") in
  let run := updatePartialWorkflowHandler (Sample.batch [op] None None)
               (Sample.remote (Sample.graph [a; b] [])) in
  node_id b = op_nodeId op ∧ node_id a ≠ op_nodeId op ∧ node_name a = op_nodeName op ∧
  run.1 = Updated "wf1" 1 0 [mkApplied 0 "removeNode" None None] []
            "Applied 1 operations to workflow" ∧
  writes run.2 = [PutCall "wf1" (Sample.graph [b] [])].
Proof. vm_compute. split_and!; done. Qed.

(** C2, amended.  The lookup takes the first node, in the order of the
    sequence, whose id equals [nodeId] or whose name equals [nodeName]: a
    [removeNode], [updateNode], [enableNode] or [disableNode] acts on that
    node, whichever of the two made it match.  So the node that matches by
    id is targeted when no node before it matches by id or by name; a node
    after it that matches by name does not matter, and a node before it
    that matches by name only is targeted instead. *)
Theorem C2_first_match_is_targeted {P} (i : nat) (op : DiffOp P) (w : Workflow P)
    (k : nat) (n : WorkflowNode P) :
  wf_nodes w !! k = Some n →
  node_id n = op_nodeId op ∨ node_name n = op_nodeName op →
  (∀ j m, j < k → wf_nodes w !! j = Some m →
     node_id m ≠ op_nodeId op ∧ node_name m ≠ op_nodeName op) →
  acts_on i op w k n.
Proof.
  intros Hk Hmatch Hbefore. apply acts_on_found, first_match; [done..|].
  intros j m Hj Hm [?|?]; destruct (Hbefore j m Hj Hm); done.
Qed.

Lemma C2_witness :
  let c := Sample.node "c" "Z" "n8n-nodes-base.set" in
  let a := Sample.node "a" "X" "n8n-nodes-base.set" in
  let b := Sample.node "b" "Y" "n8n-nodes-base.set" in
  let op := Sample.op "disableNode" (Some "b") (Some "X") in
  node_id b = op_nodeId op ∧ node_id a ≠ op_nodeId op ∧
  acts_on 0 op (Sample.graph [c; a; b] []) 1 a.
Proof.
  intros c a b op. split_and!; [reflexivity|discriminate|].
  apply C2_first_match_is_targeted; [reflexivity|by right|].
  intros [|j] m Hj Hm; [|lia]. simplify_eq/=. split; discriminate.
Defined.

(** C3.  With [validateOnly = true] the handler writes nothing, whatever
    the operations are: the store is unchanged, the only call it served is
    the fetch, and the response carries the two counts and the two lists of
    per-operation records (or reports that the fetch failed). *)
Theorem C3_validateOnly_never_writes {P} (args : PartialUpdateArgs P) (r : Remote P) :
  pu_validateOnly args = Some true →
  let run := updatePartialWorkflowHandler args r in
  stored run.2 = stored r ∧
  calls run.2 = calls r ++ [GetCall (pu_id args)] ∧
  writes run.2 = writes r ∧
  match stored r !! pu_id args with
  | Some w =>
      let st := final_state args w in
      run.1 = Validated (length (applied st)) (length (failed st)) (applied st) (failed st)
  | None => run.1 = UpdateError ("Error updating workflow: " +:+ not_found (pu_id args))
  end.
Proof.
  intros Hv. simpl.
  assert (Hw : ∀ r', stored r' = stored r → calls r' = calls r ++ [GetCall (pu_id args)] →
                     writes r' = writes r).
  { intros r' _ Hc. unfold writes. rewrite Hc, filter_app. simpl.
    rewrite filter_cons_False, filter_nil by done. apply (right_id_L [] (++)). }
  destruct (stored r !! pu_id args) as [w|] eqn:Hget.
  - rewrite (handler_fetched args r w Hget). simpl. rewrite Hv. simpl.
    split_and!; [done|done|by apply Hw|done].
  - rewrite (handler_not_fetched args r Hget). simpl.
    split_and!; [done|done|by apply Hw|done].
Qed.

Lemma C3_witness :
  let ops := [Sample.op "disableNode" None (Some "Start");
              Sample.op "removeNode" None (Some "Missing");
              Sample.connection_op "addConnection" "Start" "Start"] in
  let r := Sample.remote (Sample.graph [Sample.bare "a" "Start"] []) in
  let run := updatePartialWorkflowHandler (Sample.batch ops (Some true) (Some true)) r in
  stored run.2 = stored r ∧
  calls run.2 = [GetCall "wf1"] ∧
  writes run.2 = [] ∧
  run.1 = Validated 2 1
            [mkApplied 0 "disableNode" (Some "Start") None;
             mkApplied 2 "addConnection" None None]
            [mkFailed 1 "removeNode" "Node not found: Missing"].
Proof.
  intros ops r.
  exact (C3_validateOnly_never_writes (Sample.batch ops (Some true) (Some true)) r eq_refl).
Defined.

(** C4.  A graph whose only node is named [Start] and carries an id, as the
    node [{ id: "a", name: "Start" }] of the specification's example does;
    the one operation [{ type: "removeNode", nodeName: "Missing" }].  The
    handler answers [applied = []] and
    [failed = [{ index: 0, type: "removeNode", error: "Node not found: Missing" }]],
    and the store is neither written nor changed.  This holds under the
    atomic policy and under [continueOnError] alike. *)
Theorem C4_remove_missing_node {P} (args : PartialUpdateArgs P) (r : Remote P)
    (w : Workflow P) (n : WorkflowNode P) (op : DiffOp P) :
  stored r !! pu_id args = Some w →
  wf_nodes w = [n] →
  node_name n = Some "Start" →
  is_Some (node_id n) →
  pu_operations args = [op] →
  op_type op = "removeNode" →
  op_nodeId op = None →
  op_nodeName op = Some "Missing" →
  Js.truthy_bool (pu_validateOnly args) = false →
  let run := updatePartialWorkflowHandler args r in
  run.1 = Updated (pu_id args) 0 1 [] [mkFailed 0 "removeNode" "Node not found: Missing"]
            "Applied 0 operations to workflow" ∧
  stored run.2 = stored r ∧
  writes run.2 = writes r.
Proof.
  intros Hget Hnodes Hname [nid Hid] Hops Ht Hoid Honame Hv. simpl.
  rewrite (handler_fetched args r w Hget). simpl. rewrite Hv.
  assert (Hstep : applyOperation 0 op w = Thrown "Node not found: Missing").
  { rewrite (lookup_fails 0 op w).
    - unfold node_not_found. by rewrite Hoid, Honame.
    - apply list_find_None. rewrite Hnodes. apply Forall_singleton.
      unfold matches. rewrite Hid, Hoid, Hname, Honame. intros [?|?]; done.
    - by left. }
  assert (Hst : final_state args w =
                mkLoop w [] [mkFailed 0 "removeNode" "Node not found: Missing"] false).
  { unfold final_state. rewrite Hops. simpl. rewrite Hstep, Ht. simpl.
    by destruct (Js.truthy_bool (pu_continueOnError args)). }
  rewrite Hst. simpl. split_and!; [done|done|].
  unfold writes, fetched. simpl. rewrite filter_app. simpl.
  rewrite filter_cons_False, filter_nil by done. apply (right_id_L [] (++)).
Qed.

Lemma C4_witness :
  let r := Sample.remote (Sample.graph [Sample.bare "a" "Start"] []) in
  let run := updatePartialWorkflowHandler
               (Sample.batch [Sample.op "removeNode" None (Some "Missing")] None None) r in
  run.1 = Updated "wf1" 0 1 [] [mkFailed 0 "removeNode" "Node not found: Missing"]
            "Applied 0 operations to workflow" ∧
  stored run.2 = stored r ∧
  writes run.2 = [].
Proof.
  intros r.
  apply (C4_remove_missing_node
           (Sample.batch [Sample.op "removeNode" None (Some "Missing")] None None) r
           (Sample.graph [Sample.bare "a" "Start"] []) (Sample.bare "a" "Start")
           (Sample.op "removeNode" None (Some "Missing")));
    try reflexivity.
  by exists "a".
Defined.

(** C5.  With [continueOnError = true] every operation of the batch lands
    in exactly one of the two lists: the lengths of [operations] and
    [failures] in the response add up to the number of operations, the two
    counts of the response are those lengths, and the indices recorded on
    the two lists together are the indices of the batch, each once.  The
    handler answers otherwise only when the fetch fails. *)
Theorem C5_continueOnError_partition {P} (args : PartialUpdateArgs P) (r : Remote P) :
  pu_continueOnError args = Some true →
  match (updatePartialWorkflowHandler args r).1 with
  | Validated a f os fs
  | Updated _ a f os fs _ =>
      a = length os ∧ f = length fs ∧
      length os + length fs = length (pu_operations args) ∧
      (applied_index <$> os) ++ (failed_index <$> fs) ≡ₚ seq 0 (length (pu_operations args))
  | UpdateError _ => stored r !! pu_id args = None
  end.
Proof.
  intros Hc.
  destruct (stored r !! pu_id args) as [w|] eqn:Hget.
  - rewrite (handler_fetched args r w Hget). simpl.
    assert (Hsum : length (applied (final_state args w)) +
                   length (failed (final_state args w)) = length (pu_operations args)).
    { unfold final_state. rewrite Hc. simpl. rewrite runOperations_partition. simpl. lia. }
    assert (Hidx : indices (final_state args w) ≡ₚ seq 0 (length (pu_operations args))).
    { unfold final_state. rewrite Hc. simpl. by rewrite runOperations_indices. }
    destruct (Js.truthy_bool (pu_validateOnly args)); simpl; done.
  - by rewrite (handler_not_fetched args r Hget).
Qed.

Lemma C5_witness :
  let ops := [Sample.op "removeNode" None (Some "Missing");
              Sample.op "moveNode" None (Some "Start");
              Sample.op "disableNode" None (Some "Start");
              Sample.op "removeNode" (Some "a") None;
              Sample.op "enableNode" None (Some "Start")] in
  match (updatePartialWorkflowHandler (Sample.batch ops None (Some true))
           (Sample.remote (Sample.graph [Sample.bare "a" "Start"] []))).1 with
  | Validated a f os fs
  | Updated _ a f os fs _ =>
      a = 2 ∧ f = 3 ∧ length os + length fs = 5 ∧
      applied_index <$> os = [2; 3] ∧ failed_index <$> fs = [0; 1; 4]
  | UpdateError _ => False
  end.
Proof.
  intros ops.
  pose proof (C5_continueOnError_partition (Sample.batch ops None (Some true))
                (Sample.remote (Sample.graph [Sample.bare "a" "Start"] [])) eq_refl) as H.
  vm_compute in H. destruct H as (H1 & H2 & H3 & _).
  vm_compute. split_and!; done.
Defined.

(** C9, as stated, fails.  The operation names [X] and gives no id; the
    first node is named [X] and has an id, the second has no id.  The
    [removeNode] deletes the node named [X]; the node without an id, the
    first and only one of the sequence, is not selected. *)
Lemma C9_counterexample :
  let x := Sample.node "a" "X" "n8n-nodes-base.set" in
  let y := mkNode None (Some "Y") (Some "n8n-nodes-base.set") (Some 1%Q) None
             (Some Sample.NoParams) None in
  let op := Sample.op "removeNode" None (Some "X") in
  let run := updatePartialWorkflowHandler (Sample.batch [op] None None)
               (Sample.remote (Sample.graph [x; y] [])) in
  op_nodeId op = None ∧ is_Some (node_id x) ∧ node_id y = None ∧
  run.1 = Updated "wf1" 1 0 [mkApplied 0 "removeNode" None None] []
            "Applied 1 operations to workflow" ∧
  writes run.2 = [PutCall "wf1" (Sample.graph [y] [])].
Proof. vm_compute. split_and!; by eauto. Qed.

(** C9, amended.  When the operation gives no [nodeId], the predicate of
    the lookup holds of every node that has no id, whatever its name.  So a
    [removeNode], [updateNode], [enableNode] or [disableNode] acts on the
    first node without an id, even when its name differs from [nodeName],
    unless a node before it is named [nodeName] (the lookup then stops at
    that node). *)
Theorem C9_idless_node_targeted_unless_named_before {P} (i : nat) (op : DiffOp P)
    (w : Workflow P) (k : nat) (n : WorkflowNode P) :
  op_nodeId op = None →
  wf_nodes w !! k = Some n →
  node_id n = None →
  (∀ j m, j < k → wf_nodes w !! j = Some m →
     is_Some (node_id m) ∧ node_name m ≠ op_nodeName op) →
  matches op n ∧ acts_on i op w k n.
Proof.
  intros Hop Hk Hid Hbefore.
  assert (Hn : matches op n) by (left; congruence).
  split; [done|]. apply acts_on_found, first_match; [done..|].
  intros j m Hj Hm [Hm1|Hm2]; destruct (Hbefore j m Hj Hm) as [[x Hx] Hname]; [|done].
  rewrite Hx, Hop in Hm1. done.
Qed.

Lemma C9_witness :
  let s := Sample.node "a" "Start" "n8n-nodes-base.set" in
  let y := mkNode None (Some "Other") (Some "n8n-nodes-base.set") (Some 1%Q) None
             (Some Sample.NoParams) None in
  let z := mkNode None (Some "Third") (Some "n8n-nodes-base.set") (Some 1%Q) None
             (Some Sample.NoParams) None in
  let op := Sample.op "removeNode" None (Some "Missing") in
  let w := Sample.graph [s; y; z] [] in
  node_name y ≠ op_nodeName op ∧
  matches op y ∧ acts_on 0 op w 1 y ∧
  applyOperation 0 op w =
    Applied (Sample.graph [s; z] []) (mkApplied 0 "removeNode" None None).
Proof.
  intros s y z op w.
  assert (H : matches op y ∧ acts_on 0 op w 1 y).
  { apply C9_idless_node_targeted_unless_named_before; [reflexivity..|].
    intros [|j] m Hj Hm; [|lia]. simplify_eq/=. split; [by eexists|discriminate]. }
  split; [discriminate|]. destruct H as [H1 H2]. split_and!; [done..|].
  destruct H2 as [Hremove _]. exact (Hremove eq_refl).
Defined.

(** C10.  An operation of type [moveNode], [addTag] or [removeTag] reaches
    the [default] branch: it throws [Unknown operation type: <type>], so
    the loop pushes the failure record for its index and leaves the working
    copy, the [applied] list and the [modified] flag as they were; the loop
    then goes on or stops as the policy says. *)
Theorem C10_unhandled_types_fail {P} (continueOnError : bool) (i : nat) (op : DiffOp P)
    (rest : list (DiffOp P)) (st : LoopState P) :
  op_type op = "moveNode" ∨ op_type op = "addTag" ∨ op_type op = "removeTag" →
  applyOperation i op (workflow st) = Thrown ("Unknown operation type: " +:+ op_type op) ∧
  runOperations continueOnError i (op :: rest) st =
    let st' := mkLoop (workflow st) (applied st)
                 (failed st ++ [mkFailed i (op_type op)
                                  ("Unknown operation type: " +:+ op_type op)])
                 (modified st) in
    if continueOnError then runOperations continueOnError (S i) rest st' else st'.
Proof.
  intros Ht.
  assert (Hstep : applyOperation i op (workflow st) =
                  Thrown ("Unknown operation type: " +:+ op_type op)).
  { unfold applyOperation, unknown_operation.
    destruct Ht as [-> | [-> | ->]]; reflexivity. }
  split; [done|]. simpl. by rewrite Hstep.
Qed.

Lemma C10_witness :
  let w := Sample.graph [Sample.bare "a" "Start"] [] in
  let run t := updatePartialWorkflowHandler
                 (Sample.batch [Sample.op t None (Some "Start")] None None)
                 (Sample.remote w) in
  applyOperation 0 (Sample.op "addTag" None (Some "Start")) w =
    Thrown "Unknown operation type: addTag" ∧
  (run "moveNode").1 = Updated "wf1" 0 1 []
     [mkFailed 0 "moveNode" "Unknown operation type: moveNode"]
     "Applied 0 operations to workflow" ∧
  writes (run "removeTag").2 = [].
Proof.
  intros w run.
  destruct (C10_unhandled_types_fail false 0 (Sample.op "addTag" None (Some "Start")) []
              (mkLoop w [] [] false)) as [H _].
  { right. left. reflexivity. }
  split; [exact H|]. vm_compute. done.
Defined.

(** ** The validation summary *)

Section Substring.

Lemma append_cons (a : ascii) (p post : string) :
  String a p +:+ post = String a (p +:+ post).
Proof. reflexivity. Qed.

Lemma prefix_cons (a b : ascii) (p s : string) :
  String.prefix (String a p) (String b s) =
  if ascii_dec a b then String.prefix p s else false.
Proof. reflexivity. Qed.

Lemma prefix_append (p s : string) :
  String.prefix p s = true ↔ ∃ post, s = p +:+ post.
Proof.
  revert s. induction p as [|a p IH]; intros s.
  - split; [intros _; by exists s|]. intros _. by destruct s.
  - destruct s as [|b s].
    { split; [discriminate|]. intros [post H]. rewrite append_cons in H. discriminate. }
    rewrite prefix_cons. destruct (ascii_dec a b) as [->|Hne].
    + rewrite IH. split; intros [post H]; exists post; rewrite append_cons in *; congruence.
    + split; [discriminate|]. intros [post H]. rewrite append_cons in H. congruence.
Qed.

Lemma includes_cons (c : ascii) (s pat : string) :
  Js.includes (String c s) pat = String.prefix pat (String c s) || Js.includes s pat.
Proof. reflexivity. Qed.

(** [includes] decides the occurrence of the pattern. *)
Lemma includes_contains (s pat : string) :
  Js.includes s pat = true ↔ contains s pat.
Proof.
  split.
  - induction s as [|c s IH].
    + intros H. change (String.prefix pat EmptyString || false = true) in H.
      rewrite orb_false_r in H. apply prefix_append in H as [post ->]. by exists EmptyString, post.
    + rewrite includes_cons, orb_true_iff. intros [H|H].
      * apply prefix_append in H as [post ->]. by exists EmptyString, post.
      * destruct (IH H) as (pre & post & ->). by exists (String c pre), post.
  - intros (pre & post & ->). induction pre as [|c pre IH].
    + change (EmptyString +:+ pat +:+ post) with (pat +:+ post).
      assert (Hp : String.prefix pat (pat +:+ post) = true)
        by (apply prefix_append; by exists post).
      destruct (pat +:+ post); [change (String.prefix pat EmptyString || false = true)|
                                rewrite includes_cons]; by rewrite Hp.
    + rewrite append_cons, includes_cons, orb_true_iff. by right.
Qed.

End Substring.

Section Validation.

Context {P : Type}.
Implicit Types (n : WorkflowNode P) (nodes : list (WorkflowNode P)) (w : Workflow P).

Lemma for_each_cons {A B} (body : A → Throws (list B)) (x : A) (l : list A) :
  for_each body (x :: l) =
  match body x with
  | inl e => inl e
  | inr ys => match for_each body l with
              | inl e => inl e
              | inr zs => inr (ys ++ zs)
              end
  end.
Proof. reflexivity. Qed.

(** A loop that throws does so on one of its elements. *)
Lemma for_each_throws {A B} (body : A → Throws (list B)) (l : list A) (e : string) :
  for_each body l = inl e → ∃ x, x ∈ l ∧ body x = inl e.
Proof.
  induction l as [|x l IH]; [done|]. rewrite for_each_cons.
  destruct (body x) as [e'|ys] eqn:Hx.
  - intros [= ->]. exists x. split; [left|done].
  - destruct (for_each body l) as [e'|zs]; [|done].
    intros [= ->]. destruct (IH eq_refl) as (y & Hy & Hby). exists y. split; [by right|done].
Qed.

Lemma trigger_nodes_counted nodes l :
  trigger_nodes nodes = inr l → l = filter (λ n, counted_as_trigger n = true) nodes.
Proof.
  unfold trigger_nodes. revert l.
  induction nodes as [|n nodes IH]; intros l; [by intros [= <-]|].
  rewrite for_each_cons.
  destruct (node_type n) as [t|] eqn:Hty; [|done].
  destruct (for_each _ nodes) as [e|l']; [done|].
  intros [= <-]. rewrite (IH l' eq_refl).
  destruct (is_trigger_type t) eqn:Ht.
  - rewrite filter_cons_True; [done|]. unfold counted_as_trigger. by rewrite Hty.
  - rewrite filter_cons_False; [done|]. unfold counted_as_trigger. by rewrite Hty, Ht.
Qed.

Lemma validate_report id options w :
  match validate id options w with
  | inr (ValidationReport _ _ _ summary _ _) =>
      triggerNodes summary =
      length (filter (λ n, counted_as_trigger n = true) (wf_nodes w))
  | inr (ValidateError _) => False
  | inl _ => ∃ n, n ∈ wf_nodes w ∧ (node_type n = None ∨ node_parameters n = None)
  end.
Proof.
  unfold validate.
  destruct (if not_false (validateExpressions options)
            then expression_check (wf_nodes w) else inr ()) as [e|[]] eqn:Hexpr; simpl.
  - destruct (not_false _); [|done]. unfold expression_check in Hexpr.
    destruct (for_each _ (wf_nodes w)) as [e'|?] eqn:Hloop; [|done].
    apply for_each_throws in Hloop as (n & Hn & Hbody).
    exists n. split; [done|]. right. by destruct (node_parameters n).
  - destruct (trigger_nodes (wf_nodes w)) as [e|l] eqn:Ht; simpl.
    + apply for_each_throws in Ht as (n & Hn & Hbody).
      exists n. split; [done|]. left. by destruct (node_type n).
    + by rewrite (trigger_nodes_counted _ _ Ht).
Qed.

End Validation.

(** C6.  The claim: a node whose type contains the schedule marker is
    counted as a trigger node.  The [details] mode of [getWorkflowHandler]
    counts such a node; the summary of the validation, which tests for
    [Trigger] and [Webhook] only, does not.  On a workflow whose one node
    has the type [n8n-nodes-custom.Schedule] the summary reports no trigger
    node and the details report one. *)
Theorem C6_schedule_node_at_failing_input :
  let nightly := Sample.node "a" "Nightly" "n8n-nodes-custom.Schedule" in
  let w := Sample.graph [nightly] [] in
  Js.includes "n8n-nodes-custom.Schedule" "Schedule" = true ∧
  (validateWorkflowHandler (mkValidateArgs "wf1" None) (Sample.remote w)).1 =
    ValidationReport "wf1" (Some "Sample") true (mkSummary 1 1 0 0 0) [] [] ∧
  (getWorkflowHandler (mkGetArgs "wf1" ModeDetails) (Sample.remote w)).1 =
    GetOk (DetailsResult w 1 1).
Proof. vm_compute. done. Qed.

(** What the summary of the validation counts as it is written: the nodes
    whose type contains [Trigger] or contains [Webhook].  The handler
    answers with a report unless the fetch fails or a node lacks the type
    or the parameters the handler reads. *)
Lemma summary_trigger_count {P} (args : ValidateArgs) (r : Remote P) :
  (∀ n : WorkflowNode P,
     counted_as_trigger n = true ↔
     ∃ t, node_type n = Some t ∧ (contains t "Trigger" ∨ contains t "Webhook")) ∧
  match (validateWorkflowHandler args r).1 with
  | ValidationReport _ _ _ summary _ _ =>
      ∃ w, stored r !! va_id args = Some w ∧
           triggerNodes summary =
           length (filter (λ n, counted_as_trigger n = true) (wf_nodes w))
  | ValidateError _ =>
      stored r !! va_id args = None ∨
      ∃ w n, stored r !! va_id args = Some w ∧ n ∈ wf_nodes w ∧
             (node_type n = None ∨ node_parameters n = None)
  end.
Proof.
  split.
  - intros n. unfold counted_as_trigger, is_trigger_type.
    destruct (node_type n) as [t|].
    + rewrite orb_true_iff, !includes_contains. split.
      * intros H. by exists t.
      * by intros (t' & [= <-] & H).
    + split; [done|]. by intros (t & ? & _).
  - unfold validateWorkflowHandler, getWorkflow.
    destruct (stored r !! va_id args) as [w|] eqn:Hget; simpl; [|by left].
    pose proof (validate_report (va_id args)
                  (default (mkValidateOptions None None None None) (va_options args)) w) as H.
    destruct (validate _ _ w) as [e|[? ? ? summary ? ?|?]]; simpl.
    + right. destruct H as (n & Hn & Hcase). by exists w, n.
    + by exists w.
    + done.
Qed.

(** ** The autofix engine *)

Section Autofix.

Context {P : Type} (stringify : P → string) (path : P → bool).
Implicit Types (n : WorkflowNode P) (nodes cur : list (WorkflowNode P)) (w : Workflow P).
Implicit Types (f : Fix) (fixes : list Fix) (r : Remote P).

Lemma forget_set_typeVersion n v :
  forget_typeVersion (set_typeVersion n v) = forget_typeVersion n.
Proof. reflexivity. Qed.

(** A fix changes at most the [typeVersion] of one node. *)
Lemma applyFix_forget (st : list (WorkflowNode P) * bool) f :
  forget_typeVersion <$> (applyFix st f).1 = forget_typeVersion <$> st.1.
Proof.
  unfold applyFix.
  destruct (list_find _ st.1) as [[k n]|] eqn:Hfind; [|done].
  destruct (String.eqb _ _); [|done]. simpl.
  apply list_find_Some in Hfind as (Hk & _ & _).
  rewrite list_fmap_insert, forget_set_typeVersion.
  apply list_insert_id. by rewrite list_lookup_fmap, Hk.
Qed.

Lemma applyFix_names (st : list (WorkflowNode P) * bool) f :
  node_name <$> (applyFix st f).1 = node_name <$> st.1.
Proof.
  pose proof (applyFix_forget st f) as H.
  apply (f_equal (fmap node_name)) in H.
  by rewrite <- !list_fmap_compose in H.
Qed.

(** The flag is raised by a fix of type [typeversion-missing] whose node
    is found. *)
Lemma applyFix_modified (st : list (WorkflowNode P) * bool) f :
  fix_node f ∈ node_name <$> st.1 →
  (applyFix st f).2 = st.2 || bool_decide (typeVersion_finding f).
Proof.
  intros Hin. unfold applyFix, typeVersion_finding.
  destruct (list_find _ st.1) as [[k n]|] eqn:Hfind.
  - destruct (String.eqb_spec (fix_type f) "typeversion-missing") as [Heq|Hne].
    + rewrite bool_decide_eq_true_2 by done. by rewrite orb_true_r.
    + rewrite bool_decide_eq_false_2 by done. by rewrite orb_false_r.
  - apply list_find_None in Hfind. apply list_elem_of_fmap in Hin as (m & Hm & Hin).
    rewrite Forall_forall in Hfind. by destruct (Hfind m Hin).
Qed.

Lemma applyFixes_spec cur (b : bool) fixes :
  Forall (λ f, fix_node f ∈ node_name <$> cur) fixes →
  forget_typeVersion <$> (foldl applyFix (cur, b) fixes).1 = forget_typeVersion <$> cur ∧
  (foldl applyFix (cur, b) fixes).2 = b || bool_decide (Exists typeVersion_finding fixes).
Proof.
  revert cur b. induction fixes as [|f fixes IH]; intros cur b Hall; cbn [foldl].
  - split; [done|]. rewrite bool_decide_eq_false_2; [by rewrite orb_false_r|].
    by intros ?%Exists_nil.
  - apply Forall_cons in Hall as [Hf Hall].
    destruct (applyFix (cur, b) f) as [cur' b'] eqn:Hstep.
    pose proof (applyFix_forget (cur, b) f) as Hforget.
    pose proof (applyFix_names (cur, b) f) as Hnames.
    pose proof (applyFix_modified (cur, b) f Hf) as Hmod.
    rewrite Hstep in Hforget, Hnames, Hmod. cbn [fst snd] in *.
    destruct (IH cur' b') as [IH1 IH2]; [by rewrite Hnames|].
    rewrite IH1, IH2, Hforget, Hmod. split; [done|].
    rewrite <- orb_assoc. f_equal.
    destruct (decide (typeVersion_finding f)) as [Hy|Hn].
    + rewrite (bool_decide_eq_true_2 _ Hy). cbn [orb].
      symmetry. apply bool_decide_eq_true_2. by left.
    + rewrite (bool_decide_eq_false_2 _ Hn). cbn [orb].
      apply bool_decide_ext. rewrite Exists_cons. tauto.
Qed.

(** What a loop returns is made of what its bodies return. *)
Lemma for_each_Forall {A B} (body : A → Throws (list B)) (Q : B → Prop) (l : list A) ys :
  (∀ x ys', x ∈ l → body x = inr ys' → Forall Q ys') →
  for_each body l = inr ys → Forall Q ys.
Proof.
  revert ys. induction l as [|x l IH]; intros ys Hbody; [by intros [= <-]|].
  rewrite for_each_cons.
  destruct (body x) as [e|ys1] eqn:Hx; [done|].
  destruct (for_each body l) as [e|ys2]; [done|].
  intros [= <-]. apply Forall_app. split.
  - apply (Hbody x); [left|done].
  - apply IH; [|done]. intros y ys' Hy. apply Hbody. by right.
Qed.

(** The loops see a node only through the properties the repair keeps. *)
Lemma for_each_fmap {A B} (body : A → Throws (list B)) (h : A → A) (l : list A) :
  (∀ x, body (h x) = body x) → for_each body (h <$> l) = for_each body l.
Proof.
  intros Hh. induction l as [|x l IH]; [done|].
  by rewrite fmap_cons, !for_each_cons, Hh, IH.
Qed.

Lemma detect_inv nodes fixes :
  detect stringify path nodes = inr fixes →
  ∃ es hs, for_each (expression_fixes stringify) nodes = inr es ∧
           for_each (webhook_fixes path) nodes = inr hs ∧
           fixes = es ++ concat (typeVersion_fixes <$> nodes) ++ hs.
Proof.
  unfold detect.
  destruct (for_each (expression_fixes stringify) nodes) as [e|es]; [done|].
  destruct (for_each (webhook_fixes path) nodes) as [e|hs]; [done|].
  intros [= <-]. by exists es, hs.
Qed.

Lemma expression_fixes_shape n ys :
  expression_fixes stringify n = inr ys →
  Forall (λ f, fix_node f = node_name n ∧ fix_type f = "expression-format") ys.
Proof.
  unfold expression_fixes. destruct (node_parameters n) as [p|]; [|done].
  intros [= <-]. destruct (BadExpression.found _); by repeat constructor.
Qed.

Lemma webhook_fixes_shape n ys :
  webhook_fixes path n = inr ys →
  Forall (λ f, fix_node f = node_name n ∧ fix_type f = "webhook-missing-path") ys.
Proof.
  unfold webhook_fixes. destruct (node_type n) as [t|]; [|done].
  destruct (_ && _); [|intros [= <-]; constructor].
  destruct (node_name n) as [name|]; [|done].
  intros [= <-]. by repeat constructor.
Qed.

Lemma typeVersion_fixes_shape n :
  Forall (λ f, fix_node f = node_name n ∧ typeVersion_finding f) (typeVersion_fixes n).
Proof.
  unfold typeVersion_fixes. destruct (Js.truthy_number _); by repeat constructor.
Qed.

(** Every finding names a node of the graph. *)
Lemma detect_names nodes fixes :
  detect stringify path nodes = inr fixes →
  Forall (λ f, fix_node f ∈ node_name <$> nodes) fixes.
Proof.
  intros (es & hs & H1 & H3 & ->)%detect_inv.
  rewrite !Forall_app. split_and!.
  - eapply for_each_Forall; [|exact H1]. intros n ys Hn Hys.
    eapply Forall_impl; [by apply expression_fixes_shape|].
    intros f [-> _]. by apply list_elem_of_fmap_2.
  - apply Forall_concat, Forall_fmap, Forall_forall. intros n Hn.
    eapply Forall_impl; [apply typeVersion_fixes_shape|].
    intros f [-> _]. by apply list_elem_of_fmap_2.
  - eapply for_each_Forall; [|exact H3]. intros n ys Hn Hys.
    eapply Forall_impl; [by apply webhook_fixes_shape|].
    intros f [-> _]. by apply list_elem_of_fmap_2.
Qed.

(** When every finding is of type [typeversion-missing], the other two
    detectors found nothing. *)
Lemma detect_only_typeVersion nodes fixes :
  detect stringify path nodes = inr fixes →
  Forall typeVersion_finding fixes →
  for_each (expression_fixes stringify) nodes = inr [] ∧
  for_each (webhook_fixes path) nodes = inr [] ∧
  fixes = concat (typeVersion_fixes <$> nodes).
Proof.
  intros (es & hs & H1 & H3 & ->)%detect_inv.
  rewrite !Forall_app. intros (Hes1 & _ & Hhs1).
  assert (es = []) as ->.
  { destruct es as [|f es]; [done|]. exfalso.
    assert (Hs : Forall (λ f, fix_type f = "expression-format") (f :: es)).
    { eapply for_each_Forall; [|exact H1]. intros n ys _ Hys.
      eapply Forall_impl; [by apply expression_fixes_shape|]. by intros ? [_ ?]. }
    apply Forall_cons_1 in Hs as [Hs _]. apply Forall_cons_1 in Hes1 as [Hes1 _].
    unfold typeVersion_finding in Hes1. congruence. }
  assert (hs = []) as ->.
  { destruct hs as [|f hs]; [done|]. exfalso.
    assert (Hs : Forall (λ f, fix_type f = "webhook-missing-path") (f :: hs)).
    { eapply for_each_Forall; [|exact H3]. intros n ys _ Hys.
      eapply Forall_impl; [by apply webhook_fixes_shape|]. by intros ? [_ ?]. }
    apply Forall_cons_1 in Hs as [Hs _]. apply Forall_cons_1 in Hhs1 as [Hhs1 _].
    unfold typeVersion_finding in Hhs1. congruence. }
  by rewrite (right_id_L [] (++)).
Qed.

Lemma repair_name n : node_name (repair n) = node_name n.
Proof. unfold repair. by destruct (Js.truthy_number _). Qed.

Lemma repair_truthy n : Js.truthy_number (node_typeVersion (repair n)) = true.
Proof. unfold repair. by destruct (Js.truthy_number (node_typeVersion n)) eqn:H. Qed.

(** With pairwise distinct names, the fixes of the nodes [todo] repair
    exactly these nodes. *)
Lemma applyFixes_repair (pre todo : list (WorkflowNode P)) (b : bool) :
  NoDup (node_name <$> (pre ++ todo)) →
  (foldl applyFix ((repair <$> pre) ++ todo, b) (concat (typeVersion_fixes <$> todo))).1 =
  repair <$> (pre ++ todo).
Proof.
  revert pre b. induction todo as [|n todo IH]; intros pre b Hnodup.
  - rewrite !app_nil_r. reflexivity.
  - rewrite fmap_cons, concat_cons, foldl_app.
    assert (Hstep : ∃ b', foldl applyFix ((repair <$> pre) ++ n :: todo, b)
                            (typeVersion_fixes n) =
                          ((repair <$> (pre ++ [n])) ++ todo, b')).
    { replace ((repair <$> (pre ++ [n])) ++ todo) with ((repair <$> pre) ++ repair n :: todo)
        by (by rewrite fmap_app, <- (assoc_L (++))).
      unfold typeVersion_fixes.
      destruct (Js.truthy_number (node_typeVersion n)) eqn:Htv.
      - exists b. by replace (repair n) with n by (unfold repair; by rewrite Htv).
      - replace (repair n) with (set_typeVersion n 1%Q) by (unfold repair; by rewrite Htv).
        exists true. cbn [foldl]. unfold applyFix. cbn [fst fix_node fix_type].
        assert (Hfind : list_find (λ m, node_name m = node_name n)
                          ((repair <$> pre) ++ n :: todo) = Some (length pre, n)).
        { apply list_find_Some. split_and!.
          - rewrite lookup_app_r by (by rewrite length_fmap).
            by rewrite length_fmap, Nat.sub_diag.
          - done.
          - intros j m Hj Hlt Hname.
            rewrite lookup_app_l in Hj by (by rewrite length_fmap).
            rewrite list_lookup_fmap in Hj.
            destruct (pre !! j) as [m0|] eqn:Hm0; simplify_eq/=.
            rewrite repair_name in Hname.
            rewrite fmap_app, fmap_cons in Hnodup.
            apply NoDup_app in Hnodup as (_ & Hdisj & _).
            apply (Hdisj (node_name m0)).
            + apply list_elem_of_fmap_2. by eapply list_elem_of_lookup_2.
            + rewrite Hname. left. }
        rewrite Hfind.
        change (String.eqb "typeversion-missing" "typeversion-missing") with true.
        cbn iota. f_equal.
        rewrite insert_app_r_alt by (by rewrite length_fmap).
        by rewrite length_fmap, Nat.sub_diag. }
    destruct Hstep as [b' ->].
    rewrite IH; rewrite <- (assoc_L (++)); done.
Qed.

(** A repaired graph has no node left to flag. *)
Lemma typeVersion_fixes_repaired nodes :
  concat (typeVersion_fixes <$> (repair <$> nodes)) = [].
Proof.
  induction nodes as [|n l IH]; [done|].
  rewrite !fmap_cons, concat_cons, IH. unfold typeVersion_fixes.
  by rewrite repair_truthy.
Qed.

(** Membership in what a loop over a list collects. *)
Lemma elem_of_concat_fmap {A B} (f : A → list B) (l : list A) (y : B) :
  y ∈ concat (f <$> l) ↔ ∃ x, x ∈ l ∧ y ∈ f x.
Proof.
  induction l as [|x l IH].
  - split; [by intros ?%elem_of_nil|]. by intros (? & ?%elem_of_nil & _).
  - rewrite fmap_cons, concat_cons, elem_of_app, IH. split.
    + intros [H|(x' & ? & ?)]; [exists x; split; [left|done]|exists x'; split; [by right|done]].
    + intros (x' & [->|?]%elem_of_cons & ?); [by left|right; by exists x'].
Qed.

Lemma first_of_its_name_find nodes k n :
  nodes !! k = Some n →
  first_of_its_name nodes k ↔
  list_find (λ m, node_name m = node_name n) nodes = Some (k, n).
Proof.
  intros Hk. rewrite list_find_Some. split.
  - intros (n0 & Hk0 & Hfirst). simplify_eq. split_and!; [done..|].
    intros j m Hj Hlt. by apply (Hfirst j m).
  - intros (_ & _ & Hfirst). exists n. split; [done|].
    intros j m Hlt Hj. by apply (Hfirst j m).
Qed.

Lemma first_of_its_name_names nodes cur k :
  node_name <$> cur = node_name <$> nodes →
  first_of_its_name nodes k → first_of_its_name cur k.
Proof.
  intros Hnames (n & Hk & Hfirst).
  assert (Hlook : ∀ j, node_name <$> (cur !! j) = node_name <$> (nodes !! j))
    by (intros j; by rewrite <- !list_lookup_fmap, Hnames).
  pose proof (Hlook k) as Hkk. rewrite Hk in Hkk.
  destruct (cur !! k) as [n'|] eqn:Hk'; [|done]. injection Hkk as Hkk.
  exists n'. split; [done|]. intros j m Hlt Hj.
  pose proof (Hlook j) as Hjj. rewrite Hj in Hjj.
  destruct (nodes !! j) as [m'|] eqn:Hj'; [|done]. injection Hjj as Hjj.
  rewrite Hjj, Hkk. by apply (Hfirst j m').
Qed.

Lemma set_typeVersion_twice n v : set_typeVersion (set_typeVersion n v) v = set_typeVersion n v.
Proof. reflexivity. Qed.

(** One fix, position by position. *)
Lemma applyFix_lookup (st : list (WorkflowNode P) * bool) f k n :
  st.1 !! k = Some n →
  (typeVersion_finding f ∧ fix_node f = node_name n ∧ first_of_its_name st.1 k ∧
   (applyFix st f).1 !! k = Some (set_typeVersion n 1%Q)) ∨
  (¬ (typeVersion_finding f ∧ fix_node f = node_name n ∧ first_of_its_name st.1 k) ∧
   (applyFix st f).1 !! k = Some n).
Proof.
  intros Hk. unfold applyFix, typeVersion_finding.
  destruct (list_find _ st.1) as [[k' n']|] eqn:Hfind.
  - destruct (String.eqb_spec (fix_type f) "typeversion-missing") as [Ht|Ht].
    + destruct (decide (k' = k)) as [->|Hne].
      * pose proof Hfind as (Hk' & Hname & _)%list_find_Some. simplify_eq.
        left. split_and!; [done|done| |].
        -- apply (first_of_its_name_find _ _ n Hk). by rewrite Hname.
        -- cbn [fst]. apply list_lookup_insert_eq. by eapply lookup_lt_Some.
      * right. split.
        -- intros (_ & Hname & Hfirst).
           apply (first_of_its_name_find _ _ n Hk) in Hfirst.
           rewrite <- Hname in Hfirst. congruence.
        -- cbn [fst]. by rewrite list_lookup_insert_ne.
    + right. split; [|done]. by intros (? & _).
  - right. split; [|done]. intros (_ & Hname & Hfirst).
    apply (first_of_its_name_find _ _ n Hk) in Hfirst.
    rewrite <- Hname in Hfirst. congruence.
Qed.

(** All the fixes, position by position. *)
Lemma applyFixes_lookup cur (b : bool) fixes k n :
  cur !! k = Some n →
  (given_typeVersion fixes cur k ∧
   (foldl applyFix (cur, b) fixes).1 !! k = Some (set_typeVersion n 1%Q)) ∨
  (¬ given_typeVersion fixes cur k ∧
   (foldl applyFix (cur, b) fixes).1 !! k = Some n).
Proof.
  revert cur b n. induction fixes as [|f fixes IH]; intros cur b n Hk; cbn [foldl].
  - right. split; [|done]. intros (_ & n0 & _ & f & Hf & _). by apply elem_of_nil in Hf.
  - destruct (applyFix (cur, b) f) as [cur' b'] eqn:Hstep.
    pose proof (applyFix_names (cur, b) f) as Hnames.
    pose proof (applyFix_lookup (cur, b) f k n Hk) as Hone.
    rewrite Hstep in Hnames, Hone. cbn [fst] in Hnames, Hone.
    assert (Hfirst : first_of_its_name cur' k ↔ first_of_its_name cur k).
    { split; apply first_of_its_name_names; done. }
    assert (Hgiven : ∀ n1, cur' !! k = Some n1 → node_name n1 = node_name n →
              given_typeVersion fixes cur' k ↔
              first_of_its_name cur k ∧ flagged fixes (node_name n)).
    { intros n1 Hk1 Hname. unfold given_typeVersion. rewrite Hfirst. split.
      - intros (? & n2 & Hk2 & Hfl). simplify_eq. by rewrite <- Hname.
      - intros (? & Hfl). split; [done|]. exists n1. by rewrite Hname. }
    assert (Hall : given_typeVersion (f :: fixes) cur k ↔
              first_of_its_name cur k ∧
              ((typeVersion_finding f ∧ fix_node f = node_name n) ∨
               flagged fixes (node_name n))).
    { unfold given_typeVersion, flagged. split.
      - intros (? & n2 & Hk2 & f0 & Hf0 & Htv & Hnm). simplify_eq. split; [done|].
        apply elem_of_cons in Hf0 as [->|Hf0]; [by left|]. right. by exists f0.
      - intros (? & [[Htv Hnm]|(f0 & Hf0 & Htv & Hnm)]); (split; [done|]); exists n;
          (split; [done|]).
        + exists f. split_and!; [left|done..].
        + exists f0. split_and!; [by right|done..]. }
    destruct Hone as [(Htv & Hnm & Hf1 & Hk1)|[Hnot Hk1]].
    + left. split; [apply Hall; split; [done|by left]|].
      destruct (IH cur' b' _ Hk1) as [[_ ->]|[_ ->]]; done.
    + destruct (IH cur' b' _ Hk1) as [[Hg ->]|[Hg ->]].
      * left. split; [|done]. apply Hall. apply (Hgiven n Hk1 eq_refl) in Hg as [? ?].
        split; [done|by right].
      * right. split; [|done]. intros (Hf1 & [[Htv Hnm]|Hfl])%Hall.
        -- apply Hnot. done.
        -- apply Hg. apply (Hgiven n Hk1 eq_refl). done.
Qed.

Lemma applyFixes_length cur (b : bool) fixes :
  length (foldl applyFix (cur, b) fixes).1 = length cur.
Proof.
  revert cur b. induction fixes as [|f fixes IH]; intros cur b; cbn [foldl]; [done|].
  destruct (applyFix (cur, b) f) as [cur' b'] eqn:Hstep. rewrite IH.
  pose proof (f_equal length (applyFix_names (cur, b) f)) as H.
  rewrite Hstep in H. cbn [fst] in H. by rewrite !length_fmap in H.
Qed.

(** What a loop returns comes from its bodies. *)
Lemma for_each_elem {A B} (body : A → Throws (list B)) (l : list A) ys y :
  for_each body l = inr ys → y ∈ ys → ∃ x ys', x ∈ l ∧ body x = inr ys' ∧ y ∈ ys'.
Proof.
  revert ys. induction l as [|x l IH]; intros ys.
  - intros [= <-] Hy. by apply elem_of_nil in Hy.
  - rewrite for_each_cons.
    destruct (body x) as [e|ys1] eqn:Hx; [done|].
    destruct (for_each body l) as [e|ys2]; [done|].
    intros [= <-] [Hy|Hy]%elem_of_app.
    + exists x, ys1. split_and!; [left|done..].
    + destruct (IH ys2 eq_refl Hy) as (x' & ys' & ? & ? & ?).
      exists x', ys'. split_and!; [by right|done..].
Qed.

(** The findings of type [typeversion-missing] name the nodes whose
    [typeVersion] is falsy. *)
Lemma detect_flagged nodes fixes (name : option string) :
  detect stringify path nodes = inr fixes →
  flagged fixes name ↔
  ∃ m, m ∈ nodes ∧ node_name m = name ∧ Js.truthy_number (node_typeVersion m) = false.
Proof.
  intros (es & hs & He & Hh & ->)%detect_inv. unfold flagged. split.
  - intros (f & Hf & Htv & Hname).
    apply elem_of_app in Hf as [Hf|Hf]; [|apply elem_of_app in Hf as [Hf|Hf]].
    + exfalso. destruct (for_each_elem _ _ _ _ He Hf) as (n & ys & _ & Hys & Hin).
      pose proof (expression_fixes_shape n ys Hys) as Hs.
      rewrite Forall_forall in Hs. destruct (Hs f Hin) as [_ Ht].
      unfold typeVersion_finding in Htv. congruence.
    + apply elem_of_concat_fmap in Hf as (m & Hm & Hfl).
      exists m. unfold typeVersion_fixes in Hfl.
      destruct (Js.truthy_number (node_typeVersion m)) eqn:Hv;
        [by apply elem_of_nil in Hfl|].
      apply list_elem_of_singleton in Hfl as ->. done.
    + exfalso. destruct (for_each_elem _ _ _ _ Hh Hf) as (n & ys & _ & Hys & Hin).
      pose proof (webhook_fixes_shape n ys Hys) as Hs.
      rewrite Forall_forall in Hs. destruct (Hs f Hin) as [_ Ht].
      unfold typeVersion_finding in Htv. congruence.
  - intros (m & Hm & Hname & Hv).
    exists (mkFix (node_name m) "typeversion-missing" "Node missing typeVersion"
              "Add typeVersion: 1" "high").
    split_and!; [|done..]. apply elem_of_app. right. apply elem_of_app. left.
    apply elem_of_concat_fmap. exists m. split; [done|].
    unfold typeVersion_fixes. rewrite Hv. by left.
Qed.

Lemma writes_fetched id r : writes (fetched id r) = writes r.
Proof.
  unfold writes, fetched. cbn [calls]. rewrite filter_app.
  rewrite filter_cons_False, filter_nil by done. apply (right_id_L [] (++)).
Qed.

(** The handler in apply mode, once the fetch and the detection have
    succeeded. *)
Lemma autofix_applied (args : AutofixArgs) r w fixes :
  af_applyFixes args = Some true →
  stored r !! af_id args = Some w →
  detect stringify path (wf_nodes w) = inr fixes →
  autofixWorkflowHandler stringify path args r =
  let res := applyFixes (wf_nodes w) fixes in
  (AutofixReport (af_id args) (wf_name w) (length fixes) (length fixes) fixes
     (autofix_message true (length fixes)),
   if res.2
   then mkRemote (<[af_id args := set_nodes w res.1]> (stored r))
          (calls r ++ [GetCall (af_id args)] ++ [PutCall (af_id args) (set_nodes w res.1)])
   else fetched (af_id args) r).
Proof.
  intros Ha Hget Hdet. unfold autofixWorkflowHandler, getWorkflow.
  rewrite Hget, Hdet, Ha. cbn [Js.truthy_bool].
  destruct (applyFixes (wf_nodes w) fixes) as [nodes' [|]]; cbn [fst snd]; [|done].
  unfold updateWorkflow. cbn [stored calls]. rewrite Hget.
  by rewrite <- (assoc_L (++)).
Qed.

End Autofix.

(** C7, as stated, fails.  Two nodes share the name [A]; the first has a
    [typeVersion], the second has none, and nothing else is detected.  The
    repair looks the node up by name, so it sets the [typeVersion] of the
    first node and leaves the second without one: the second run detects
    the same finding again and answers [fixesApplied = 1]. *)
Lemma C7_counterexample :
  let first_a := mkNode (Some "a") (Some "A") (Some "n8n-nodes-base.set") (Some 2%Q)
                   (Some [0%Q; 0%Q]) (Some Sample.NoParams) None in
  let second_a := mkNode (Some "b") (Some "A") (Some "n8n-nodes-base.set") None
                    (Some [0%Q; 0%Q]) (Some Sample.NoParams) None in
  let finding := mkFix (Some "A") "typeversion-missing" "Node missing typeVersion"
                   "Add typeVersion: 1" "high" in
  let args := mkAutofixArgs "wf1" (Some true) None None None in
  let first := autofixWorkflowHandler Sample.stringify Sample.has_path args
                 (Sample.remote (Sample.graph [first_a; second_a] [])) in
  let second := autofixWorkflowHandler Sample.stringify Sample.has_path args first.2 in
  first.1 = AutofixReport "wf1" (Some "Sample") 1 1 [finding] "Applied 1 fixes to workflow" ∧
  writes first.2 =
    [PutCall "wf1" (Sample.graph [set_typeVersion first_a 1%Q; second_a] [])] ∧
  second.1 = AutofixReport "wf1" (Some "Sample") 1 1 [finding] "Applied 1 fixes to workflow".
Proof. vm_compute. done. Qed.

(** C7, amended.  For a graph whose node names are pairwise distinct and
    whose findings are all of type [typeversion-missing], at least one: a
    run with [applyFixes = true] reports the findings, sets [typeVersion]
    to 1 on exactly the nodes whose [typeVersion] is missing and writes the
    graph back; a second run on the stored graph finds nothing, answers
    [fixesFound = 0] and [fixesApplied = 0], and writes nothing. *)
Theorem C7_typeVersion_repair_idempotent {P} (stringify : P → string) (path : P → bool)
    (args : AutofixArgs) (r : Remote P) (w : Workflow P) (fixes : list Fix) :
  af_applyFixes args = Some true →
  stored r !! af_id args = Some w →
  NoDup (node_name <$> wf_nodes w) →
  detect stringify path (wf_nodes w) = inr fixes →
  fixes ≠ [] →
  Forall typeVersion_finding fixes →
  let first := autofixWorkflowHandler stringify path args r in
  let second := autofixWorkflowHandler stringify path args first.2 in
  let w' := set_nodes w (repair <$> wf_nodes w) in
  first.1 = AutofixReport (af_id args) (wf_name w) (length fixes) (length fixes) fixes
              (autofix_message true (length fixes)) ∧
  stored first.2 = <[af_id args := w']> (stored r) ∧
  writes first.2 = writes r ++ [PutCall (af_id args) w'] ∧
  second.1 = AutofixReport (af_id args) (wf_name w) 0 0 [] (autofix_message true 0) ∧
  stored second.2 = stored first.2 ∧
  writes second.2 = writes first.2.
Proof.
  intros Ha Hget Hnodup Hdet Hne Hall. cbn zeta.
  destruct (detect_only_typeVersion stringify path _ _ Hdet Hall) as (He & Hh & Hfixes).
  rewrite (autofix_applied stringify path args r w fixes Ha Hget Hdet). cbn zeta.
  assert (Hnodes : (applyFixes (wf_nodes w) fixes).1 = repair <$> wf_nodes w).
  { unfold applyFixes. rewrite Hfixes.
    apply (applyFixes_repair [] (wf_nodes w) false Hnodup). }
  assert (Hflag : (applyFixes (wf_nodes w) fixes).2 = true).
  { unfold applyFixes.
    destruct (applyFixes_spec (wf_nodes w) false fixes) as [_ ->].
    - by eapply detect_names.
    - apply bool_decide_eq_true_2. destruct fixes as [|f fixes]; [done|].
      apply Forall_cons_1 in Hall as [Hf _]. by left. }
  rewrite Hflag, Hnodes. cbn [fst snd stored calls].
  set (w' := set_nodes w (repair <$> wf_nodes w)).
  set (r1 := mkRemote (<[af_id args := w']> (stored r))
               (calls r ++ [GetCall (af_id args)] ++ [PutCall (af_id args) w'])).
  assert (Hdet' : detect stringify path (wf_nodes w') = inr []).
  { unfold detect. cbn [w' set_nodes wf_nodes].
    rewrite (for_each_fmap (expression_fixes stringify) repair)
      by (intros n; unfold repair; by destruct (Js.truthy_number _)).
    rewrite (for_each_fmap (webhook_fixes path) repair)
      by (intros n; unfold repair; by destruct (Js.truthy_number _)).
    rewrite He, Hh. cbn. f_equal. rewrite app_nil_r.
    apply typeVersion_fixes_repaired. }
  assert (Hget' : stored r1 !! af_id args = Some w') by apply lookup_insert_eq.
  rewrite (autofix_applied stringify path args r1 w' [] Ha Hget' Hdet').
  cbn [applyFixes foldl fst snd length].
  split_and!; try done.
  - unfold writes. cbn [r1 calls]. rewrite !filter_app.
    rewrite (filter_cons_False _ (GetCall _)), filter_nil by done.
    by rewrite filter_cons_True, filter_nil by done.
  - apply writes_fetched.
Qed.

Lemma C7_witness :
  let a := mkNode (Some "a") (Some "A") (Some "n8n-nodes-base.set") None
             (Some [0%Q; 0%Q]) (Some Sample.NoParams) None in
  let b := mkNode (Some "b") (Some "B") (Some "n8n-nodes-base.set") (Some 0%Q)
             (Some [0%Q; 0%Q]) (Some Sample.NoParams) None in
  let c := mkNode (Some "c") (Some "C") (Some "n8n-nodes-base.set") (Some 2%Q)
             (Some [0%Q; 0%Q]) (Some Sample.HookPath) None in
  let args := mkAutofixArgs "wf1" (Some true) None None None in
  let r := Sample.remote (Sample.graph [a; b; c] []) in
  let first := autofixWorkflowHandler Sample.stringify Sample.has_path args r in
  let second := autofixWorkflowHandler Sample.stringify Sample.has_path args first.2 in
  writes first.2 =
    [PutCall "wf1" (Sample.graph [set_typeVersion a 1%Q; set_typeVersion b 1%Q; c] [])] ∧
  second.1 = AutofixReport "wf1" (Some "Sample") 0 0 [] "Applied 0 fixes to workflow" ∧
  writes second.2 = writes first.2.
Proof.
  intros a b c args r.
  destruct (C7_typeVersion_repair_idempotent Sample.stringify Sample.has_path args r
              (Sample.graph [a; b; c] [])
              (concat (typeVersion_fixes <$> [a; b; c])))
    as (_ & _ & H3 & H4 & _ & H6).
  - reflexivity.
  - reflexivity.
  - apply (bool_decide_unpack _). vm_compute. exact I.
  - reflexivity.
  - discriminate.
  - repeat constructor.
  - split_and!; [exact H3|exact H4|exact H6].
Defined.

(** C8.  With [applyFixes = true] the report's [fixesApplied] equals its
    [fixesFound], the number of all findings, whatever their types.  The
    findings of type [typeversion-missing] name the nodes whose
    [typeVersion] is falsy, and only they change the graph: the first node
    to carry the name of such a finding has the [typeVersion] 1 afterwards
    and is otherwise as it was, and every other node stays exactly as it
    was fetched.  The graph is written back exactly when a finding of type
    [typeversion-missing] is among the findings; with no such finding
    nothing is written, although the findings are counted as applied.  An
    error response comes with no write either. *)
Theorem C8_fixesApplied_counts_every_finding {P} (stringify : P → string) (path : P → bool)
    (args : AutofixArgs) (r : Remote P) :
  af_applyFixes args = Some true →
  let run := autofixWorkflowHandler stringify path args r in
  match run.1 with
  | AutofixReport _ _ found applied_count fixes _ =>
      found = length fixes ∧ applied_count = found ∧
      ∃ w nodes',
        stored r !! af_id args = Some w ∧
        detect stringify path (wf_nodes w) = inr fixes ∧
        (∀ name, flagged fixes name ↔
           ∃ m, m ∈ wf_nodes w ∧ node_name m = name ∧
                Js.truthy_number (node_typeVersion m) = false) ∧
        length nodes' = length (wf_nodes w) ∧
        (∀ k n, wf_nodes w !! k = Some n →
           (given_typeVersion fixes (wf_nodes w) k ∧
            ∃ n', nodes' !! k = Some n' ∧ node_typeVersion n' = Some 1%Q ∧
                  forget_typeVersion n' = forget_typeVersion n) ∨
           (¬ given_typeVersion fixes (wf_nodes w) k ∧ nodes' !! k = Some n)) ∧
        if bool_decide (Exists typeVersion_finding fixes)
        then stored run.2 = <[af_id args := set_nodes w nodes']> (stored r) ∧
             writes run.2 = writes r ++ [PutCall (af_id args) (set_nodes w nodes')]
        else stored run.2 = stored r ∧ writes run.2 = writes r
  | AutofixError _ => stored run.2 = stored r ∧ writes run.2 = writes r
  end.
Proof.
  intros Ha. cbn zeta.
  destruct (stored r !! af_id args) as [w|] eqn:Hget.
  2:{ unfold autofixWorkflowHandler, getWorkflow. rewrite Hget. cbn [fst snd].
      split; [done|]. apply (writes_fetched (af_id args) r). }
  destruct (detect stringify path (wf_nodes w)) as [e|fixes] eqn:Hdet.
  { unfold autofixWorkflowHandler, getWorkflow. rewrite Hget, Hdet. cbn [fst snd].
    split; [done|]. apply (writes_fetched (af_id args) r). }
  rewrite (autofix_applied stringify path args r w fixes Ha Hget Hdet). cbn zeta.
  cbn [fst snd]. split_and!; [done..|].
  exists w, (applyFixes (wf_nodes w) fixes).1. split_and!; [done..| | | |].
  - intros name. by apply (detect_flagged stringify path).
  - apply applyFixes_length.
  - intros k n Hk.
    destruct (applyFixes_lookup (wf_nodes w) false fixes k n Hk) as [[Hg Hk']|[Hg Hk']];
      [left|by right].
    split; [done|]. by exists (set_typeVersion n 1%Q).
  - unfold applyFixes.
    destruct (applyFixes_spec (wf_nodes w) false fixes) as [_ ->];
      [by eapply detect_names|].
    cbn [orb]. destruct (bool_decide (Exists typeVersion_finding fixes)).
    + split; [done|]. unfold writes. cbn [calls]. rewrite !filter_app.
      rewrite (filter_cons_False _ (GetCall _)), filter_nil by done.
      by rewrite filter_cons_True, filter_nil by done.
    + split; [done|]. apply writes_fetched.
Qed.

Lemma C8_witness :
  let request := mkNode (Some "a") (Some "Fetch") (Some "n8n-nodes-base.httpRequest")
                   None (Some [0%Q; 0%Q]) (Some Sample.UrlExpression) None in
  let hook := mkNode (Some "b") (Some "Reply Now") (Some "n8n-nodes-base.respondToWebhook")
                (Some 1%Q) (Some [0%Q; 0%Q]) (Some Sample.NoParams) None in
  let args := mkAutofixArgs "wf1" (Some true) None None None in
  let run := autofixWorkflowHandler Sample.stringify Sample.has_path args
               (Sample.remote (Sample.graph [request; hook] [])) in
  match run.1 with
  | AutofixReport _ _ found applied_count fixes _ =>
      found = 3 ∧ applied_count = 3 ∧
      fix_type <$> fixes = ["expression-format"; "typeversion-missing";
                            "webhook-missing-path"]
  | AutofixError _ => False
  end ∧
  writes run.2 =
    [PutCall "wf1"
       (Sample.graph
          [mkNode (Some "a") (Some "Fetch") (Some "n8n-nodes-base.httpRequest")
             (Some 1%Q) (Some [0%Q; 0%Q]) (Some Sample.UrlExpression) None;
           hook] [])].
Proof.
  intros request hook args.
  pose proof (C8_fixesApplied_counts_every_finding Sample.stringify Sample.has_path args
                (Sample.remote (Sample.graph [request; hook] [])) eq_refl) as H.
  vm_compute in H. destruct H as (_ & _ & _).
  vm_compute. split_and!; done.
Defined.

(** ** The examples of section 8 of the specification *)

(** The graph [[{ id: "a", name: "Start" }]] and the operation
    [{ type: "disableNode", nodeName: "Start" }] under the atomic policy:
    the operation is applied and the node written back is disabled. *)
Example disable_start :
  let run := updatePartialWorkflowHandler
               (Sample.batch [Sample.op "disableNode" None (Some "Start")] None None)
               (Sample.remote (Sample.graph [Sample.bare "a" "Start"] [])) in
  run.1 = Updated "wf1" 1 0 [mkApplied 0 "disableNode" (Some "Start") None] []
            "Applied 1 operations to workflow" ∧
  writes run.2 =
    [PutCall "wf1" (Sample.graph [set_disabled (Sample.bare "a" "Start") true] [])].
Proof. vm_compute. done. Qed.

(** A connection from [A] to [B] where no node is named [B]: the
    validation answers [valid = false] with the one error on ["A -> B"]. *)
Example dangling_target :
  let a := Sample.node "a" "A" "n8n-nodes-base.set" in
  (validateWorkflowHandler (mkValidateArgs "wf1" None)
     (Sample.remote (Sample.graph [a] (Sample.link "A" "B")))).1 =
  ValidationReport "wf1" (Some "Sample") false (mkSummary 1 1 0 1 0)
    [ConnectionIssue "A -> B" "Target node not found: B"] [].
Proof. vm_compute. done. Qed.

(** Under the atomic policy the loop stops at the first failure, and what
    was applied before it is still written back. *)
Example atomic_stops_and_writes :
  let ops := [Sample.op "disableNode" None (Some "Start");
              Sample.op "removeNode" None (Some "Missing");
              Sample.op "enableNode" None (Some "Start")] in
  let run := updatePartialWorkflowHandler (Sample.batch ops None None)
               (Sample.remote (Sample.graph [Sample.bare "a" "Start"] [])) in
  run.1 = Updated "wf1" 1 1 [mkApplied 0 "disableNode" (Some "Start") None]
            [mkFailed 1 "removeNode" "Node not found: Missing"]
            "Applied 1 operations to workflow" ∧
  writes run.2 =
    [PutCall "wf1" (Sample.graph [set_disabled (Sample.bare "a" "Start") true] [])].
Proof. vm_compute. done. Qed.

(** ** Further properties of the operation engine *)

Section EngineMore.

Context {P : Type}.
Implicit Types (op : DiffOp P) (w : Workflow P) (n m : WorkflowNode P).
Implicit Types (nodes : list (WorkflowNode P)) (st : LoopState P) (r : Remote P).

Lemma set_nodes_same w : set_nodes w (wf_nodes w) = w.
Proof. by destruct w. Qed.

Lemma set_nodes_back w nodes : set_nodes (set_nodes w nodes) (wf_nodes w) = w.
Proof. by destruct w. Qed.

Lemma delete_last {A} (l : list A) (x : A) : delete (length l) (l ++ [x]) = l.
Proof. induction l as [|y l IH]; [done|]. cbn. by f_equal. Qed.

Lemma applyOperation_type i op w w' a :
  applyOperation i op w = Applied w' a → applied_type a = op_type op.
Proof.
  unfold applyOperation, findIndex. intros H.
  repeat (case_match; simplify_eq/=; try done).
Qed.

Lemma applyOperation_id i op w w' a :
  applyOperation i op w = Applied w' a → wf_id w' = wf_id w.
Proof.
  unfold applyOperation, findIndex. intros H.
  repeat (case_match; simplify_eq/=; try done).
Qed.

(** Under the atomic policy the loop records a prefix of the batch on
    [applied] and at most the operation after it on [failed]. *)
Lemma runOperations_atomic ops i st :
  let st' := runOperations false i ops st in
  ∃ done_ : list AppliedOp,
    applied st' = applied st ++ done_ ∧
    applied_index <$> done_ = seq i (length done_) ∧
    applied_type <$> done_ = op_type <$> take (length done_) ops ∧
    ((failed st' = failed st ∧ length done_ = length ops) ∨
     (∃ op msg, ops !! length done_ = Some op ∧
                failed st' = failed st ++ [mkFailed (i + length done_) (op_type op) msg])).
Proof.
  revert i st. induction ops as [|op ops IH]; intros i st; simpl.
  - exists []. rewrite app_nil_r. split_and!; [done..|]. by left.
  - destruct (applyOperation i op (workflow st)) as [w' a|msg] eqn:Hop.
    + destruct (IH (S i) (mkLoop w' (applied st ++ [a]) (failed st) true))
        as (l & Happ & Hidx & Hty & Hfail).
      exists (a :: l). cbn [applied failed] in *. split_and!.
      * by rewrite Happ, <- (assoc_L (++)).
      * rewrite fmap_cons, Hidx, (applyOperation_index _ _ _ _ _ Hop). done.
      * rewrite fmap_cons, Hty, (applyOperation_type _ _ _ _ _ Hop). done.
      * destruct Hfail as [[? ?]|(op' & msg & Hl & Hf)].
        { left. split; [done|]. cbn [length]. by f_equal. }
        right. exists op', msg. split; [done|]. rewrite Hf. cbn [length].
        by rewrite Nat.add_succ_r.
    + exists []. simpl. rewrite app_nil_r. split_and!; [done..|]. right.
      exists op, msg. split; [done|]. by rewrite Nat.add_0_r.
Qed.

(** An operation that went through has raised the flag [modified]. *)
Lemma runOperations_modified c ops i st :
  (applied st ≠ [] → modified st = true) →
  applied (runOperations c i ops st) ≠ [] → modified (runOperations c i ops st) = true.
Proof.
  revert i st. induction ops as [|op ops IH]; intros i st Hinv; simpl; [done|].
  destruct (applyOperation i op (workflow st)) as [w' a|msg].
  - by apply IH.
  - destruct c; [by apply IH|done].
Qed.

Lemma runOperations_id c ops i st :
  wf_id (workflow (runOperations c i ops st)) = wf_id (workflow st).
Proof.
  revert i st. induction ops as [|op ops IH]; intros i st; simpl; [done|].
  destruct (applyOperation i op (workflow st)) as [w' a|msg] eqn:Hop.
  - rewrite IH. simpl. by eapply applyOperation_id.
  - destruct c; [by rewrite IH|done].
Qed.

(** An operation other than [addNode] keeps the number of nodes, but for
    a [removeNode], which takes one node away. *)
Lemma applyOperation_length i op w w' a :
  op_type op ≠ "addNode" →
  applyOperation i op w = Applied w' a →
  length (wf_nodes w') + count_type "removeNode" [a] = length (wf_nodes w).
Proof.
  intros Hadd H. pose proof (applyOperation_type _ _ _ _ _ H) as Ht.
  unfold count_type. rewrite !filter_cons, !filter_nil, Ht.
  unfold applyOperation, findIndex in H.
  repeat match type of H with
         | (if String.eqb ?x ?y then _ else _) = _ =>
             destruct (String.eqb_spec x y) as [Heq|_]; [try rewrite Heq in *|]
         | (if String.eqb ?x ?y || String.eqb ?x ?z then _ else _) = _ =>
             destruct (String.eqb_spec x y) as [Heq|_];
             [try rewrite Heq in *
             |destruct (String.eqb_spec x z) as [Heq|_]; [try rewrite Heq in *|]];
             cbn [orb] in H
         end; try done.
  - destruct (list_find _ _) as [[k n]|] eqn:Hfind; simplify_eq/=.
    apply list_find_Some in Hfind as (Hk & _ & _).
    rewrite length_delete by (by eexists). apply lookup_lt_Some in Hk. lia.
  - destruct (list_find _ _) as [[k n]|]; simplify_eq/=. by rewrite length_insert.
  - destruct (list_find _ _) as [[k n]|]; simplify_eq/=. by rewrite length_insert.
  - destruct (list_find _ _) as [[k n]|]; simplify_eq/=. by rewrite length_insert.
  - by simplify_eq/=.
  - by simplify_eq/=.
  - by simplify_eq/=.
  - by simplify_eq/=.
Qed.

Lemma count_type_app t (l1 l2 : list AppliedOp) :
  count_type t (l1 ++ l2) = count_type t l1 + count_type t l2.
Proof. unfold count_type. by rewrite filter_app, length_app. Qed.

Lemma runOperations_length c ops i st base :
  Forall (λ op, op_type op ≠ "addNode") ops →
  length (wf_nodes (workflow st)) + count_type "removeNode" (applied st) = base →
  length (wf_nodes (workflow (runOperations c i ops st))) +
  count_type "removeNode" (applied (runOperations c i ops st)) = base.
Proof.
  intros Hall. revert i st.
  induction Hall as [|op ops Hop _ IH]; intros i st Hinv; simpl; [done|].
  destruct (applyOperation i op (workflow st)) as [w' a|msg] eqn:Happ.
  - apply IH. simpl. rewrite !count_type_app.
    pose proof (applyOperation_length _ _ _ _ _ Hop Happ). lia.
  - destruct c; [by apply IH|done].
Qed.

(** What the lookup finds after a node has been appended. *)
Lemma list_find_snoc op nodes n :
  Forall (λ m, ¬ matches op m) nodes → matches op n →
  list_find (matches op) (nodes ++ [n]) = Some (length nodes, n).
Proof.
  intros Hnone Hn. apply list_find_Some. split_and!.
  - by rewrite lookup_app_r, Nat.sub_diag.
  - done.
  - intros j m Hj Hlt. rewrite lookup_app_l in Hj by done.
    rewrite Forall_forall in Hnone. apply Hnone. by eapply list_elem_of_lookup_2.
Qed.

(** The flag of a node plays no part in the lookup. *)
Lemma list_find_toggled op op' nodes k n b :
  op_nodeId op' = op_nodeId op → op_nodeName op' = op_nodeName op →
  list_find (matches op) nodes = Some (k, n) →
  list_find (matches op') (<[k := set_disabled n b]> nodes) = Some (k, set_disabled n b).
Proof.
  intros Hid Hname (Hk & Hn & Hbefore)%list_find_Some.
  apply list_find_Some. split_and!.
  - apply list_lookup_insert_eq. by eapply lookup_lt_Some.
  - unfold matches in *. rewrite Hid, Hname. done.
  - intros j m Hj Hlt. rewrite list_lookup_insert_ne in Hj by lia.
    unfold matches in *. rewrite Hid, Hname. by apply (Hbefore j).
Qed.

End EngineMore.

(** X1.  Without [continueOnError] the operations recorded as applied
    are the first operations of the request, in order, with their own
    indices and types.  Either every operation was applied and nothing
    failed, or the one recorded failure is the operation that comes right
    after the applied ones: nothing behind the first failure is tried. *)
Theorem atomic_policy_records_a_prefix {P} (args : PartialUpdateArgs P) (r : Remote P)
    (w : Workflow P) :
  stored r !! pu_id args = Some w →
  Js.truthy_bool (pu_continueOnError args) = false →
  match (updatePartialWorkflowHandler args r).1 with
  | Validated _ _ os fs
  | Updated _ _ _ os fs _ =>
      applied_index <$> os = seq 0 (length os) ∧
      applied_type <$> os = op_type <$> take (length os) (pu_operations args) ∧
      ((fs = [] ∧ length os = length (pu_operations args)) ∨
       (∃ op msg, pu_operations args !! length os = Some op ∧
                  fs = [mkFailed (length os) (op_type op) msg]))
  | UpdateError _ => False
  end.
Proof.
  intros Hget Hc. rewrite (handler_fetched args r w Hget). cbn zeta.
  destruct (runOperations_atomic (pu_operations args) 0 (mkLoop w [] [] false))
    as (l & Happ & Hidx & Hty & Hfail).
  unfold final_state. rewrite Hc. cbn [applied failed] in *. rewrite Happ.
  destruct (Js.truthy_bool (pu_validateOnly args)); cbn [fst app];
    (split_and!; [done|done|]);
    (destruct Hfail as [[-> ?]|(op & msg & ? & ->)]; [by left|right; by exists op, msg]).
Qed.

Lemma atomic_policy_records_a_prefix_witness :
  let ops := [Sample.op "disableNode" None (Some "Start");
              Sample.op "removeNode" None (Some "Missing");
              Sample.op "enableNode" None (Some "Start")] in
  match (updatePartialWorkflowHandler (Sample.batch ops None None)
           (Sample.remote (Sample.graph [Sample.bare "a" "Start"] []))).1 with
  | Validated _ _ os fs
  | Updated _ _ _ os fs _ =>
      applied_index <$> os = [0] ∧ failed_index <$> fs = [1]
  | UpdateError _ => False
  end.
Proof.
  intros ops.
  pose proof (atomic_policy_records_a_prefix (Sample.batch ops None None)
                (Sample.remote (Sample.graph [Sample.bare "a" "Start"] []))
                (Sample.graph [Sample.bare "a" "Start"] []) eq_refl eq_refl) as H.
  vm_compute in H. destruct H as (H1 & _ & _).
  vm_compute. split; [exact H1|reflexivity].
Defined.

(** X2.  Unless [validateOnly] is set, a batch of which at least one
    operation was applied is written back: one PUT stores the last graph of
    the loop under the requested id. *)
Theorem applied_operations_are_written_back {P} (args : PartialUpdateArgs P) (r : Remote P)
    (w : Workflow P) :
  stored r !! pu_id args = Some w →
  Js.truthy_bool (pu_validateOnly args) = false →
  applied (final_state args w) ≠ [] →
  let run := updatePartialWorkflowHandler args r in
  stored run.2 = <[pu_id args := workflow (final_state args w)]> (stored r) ∧
  writes run.2 = writes r ++ [PutCall (pu_id args) (workflow (final_state args w))].
Proof.
  intros Hget Hv Happ. cbn zeta. rewrite (handler_fetched args r w Hget). cbn zeta.
  rewrite Hv. cbn [snd].
  pose proof (runOperations_modified (Js.truthy_bool (pu_continueOnError args))
                (pu_operations args) 0 (mkLoop w [] [] false)) as Hmod.
  fold (final_state args w) in Hmod. rewrite Hmod by done. split; [done|].
  unfold writes. cbn [calls]. rewrite !filter_app.
  rewrite (filter_cons_False _ (GetCall _)), filter_nil by done.
  by rewrite filter_cons_True, filter_nil by done.
Qed.

Lemma applied_operations_are_written_back_witness :
  let ops := [Sample.op "disableNode" None (Some "Start");
              Sample.op "removeNode" None (Some "Missing")] in
  let r := Sample.remote (Sample.graph [Sample.bare "a" "Start"] []) in
  let run := updatePartialWorkflowHandler (Sample.batch ops None None) r in
  writes run.2 =
    [PutCall "wf1" (Sample.graph [set_disabled (Sample.bare "a" "Start") true] [])].
Proof.
  intros ops r.
  pose proof (applied_operations_are_written_back (Sample.batch ops None None) r
                (Sample.graph [Sample.bare "a" "Start"] []) eq_refl eq_refl) as H.
  destruct H as [_ H]; [vm_compute; discriminate|]. vm_compute in H. vm_compute. exact H.
Defined.

(** X3.  Whatever the operations and the error policy, a batch leaves
    the id and the connections of the workflow as they were. *)
Theorem batch_keeps_id_and_connections {P} (c : bool) (ops : list (DiffOp P)) (i : nat)
    (st : LoopState P) :
  wf_id (workflow (runOperations c i ops st)) = wf_id (workflow st) ∧
  wf_connections (workflow (runOperations c i ops st)) = wf_connections (workflow st).
Proof. split; [apply runOperations_id|apply runOperations_connections]. Qed.

(** X4.  In a batch without [addNode] operations the number of nodes only
    drops, and by one for each applied [removeNode]: the number of nodes
    after the batch plus the number of applied [removeNode] operations is
    the number of nodes before it. *)
Theorem node_count_without_addNode {P} (args : PartialUpdateArgs P) (w : Workflow P) :
  Forall (λ op, op_type op ≠ "addNode") (pu_operations args) →
  let st := final_state args w in
  length (wf_nodes (workflow st)) + count_type "removeNode" (applied st) =
  length (wf_nodes w).
Proof.
  intros Hall. cbn zeta. unfold final_state. by apply runOperations_length.
Qed.

Lemma node_count_without_addNode_witness :
  let a := Sample.node "a" "A" "n8n-nodes-base.set" in
  let b := Sample.node "b" "B" "n8n-nodes-base.set" in
  let ops := [Sample.op "removeNode" None (Some "A");
              Sample.op "removeNode" None (Some "Missing");
              Sample.op "disableNode" (Some "b") None] in
  let st := final_state (Sample.batch ops None (Some true)) (Sample.graph [a; b] []) in
  length (wf_nodes (workflow st)) + count_type "removeNode" (applied st) = 2 ∧
  count_type "removeNode" (applied st) = 1.
Proof.
  intros a b ops. split; [|reflexivity].
  apply (node_count_without_addNode (Sample.batch ops None (Some true))
           (Sample.graph [a; b] [])).
  repeat constructor; discriminate.
Defined.

(** X5.  Adding a node and then removing it, by a reference that
    matches the new node and none of the nodes that were there before,
    gives back the graph it started from; both operations are recorded as
    applied and the graph counts as modified. *)
Theorem add_then_remove_restores {P} (c : bool) (i : nat) (add rm : DiffOp P)
    (st : LoopState P) :
  op_type add = "addNode" →
  op_type rm = "removeNode" →
  matches rm (op_node add) →
  Forall (λ m, ¬ matches rm m) (wf_nodes (workflow st)) →
  runOperations c i [add; rm] st =
  mkLoop (workflow st)
    (applied st ++ [mkApplied i "addNode" (node_name (op_node add)) None;
                    mkApplied (S i) "removeNode" None None])
    (failed st) true.
Proof.
  intros Hadd Hrm Hmatch Hnone. cbn [runOperations].
  assert (H1 : applyOperation i add (workflow st) =
               Applied (set_nodes (workflow st) (wf_nodes (workflow st) ++ [op_node add]))
                 (mkApplied i "addNode" (node_name (op_node add)) None)).
  { unfold applyOperation. by rewrite Hadd. }
  rewrite H1. cbn [workflow applied failed].
  assert (H2 : applyOperation (S i) rm
                 (set_nodes (workflow st) (wf_nodes (workflow st) ++ [op_node add])) =
               Applied (workflow st) (mkApplied (S i) "removeNode" None None)).
  { unfold applyOperation, findIndex. rewrite Hrm. cbn [String.eqb Ascii.eqb].
    change (String.eqb "removeNode" "addNode") with false.
    change (String.eqb "removeNode" "removeNode") with true. cbn iota.
    cbn [set_nodes wf_nodes].
    rewrite (list_find_snoc rm _ _ Hnone Hmatch). cbn [fmap option_fmap option_map fst].
    by rewrite delete_last, set_nodes_back. }
  rewrite H2. cbn [workflow applied failed]. by rewrite <- (assoc_L (++)).
Qed.

Lemma add_then_remove_restores_witness :
  let w := Sample.graph [Sample.bare "a" "Start"] [] in
  let n := Sample.node "b" "New" "n8n-nodes-base.set" in
  let add := mkOp "addNode" n None None Sample.no_patch None None [] in
  let rm := Sample.op "removeNode" None (Some "New") in
  workflow (runOperations false 0 [add; rm] (mkLoop w [] [] false)) = w.
Proof.
  intros w n add rm.
  rewrite (add_then_remove_restores false 0 add rm (mkLoop w [] [] false));
    [reflexivity|reflexivity|reflexivity|by right|].
  repeat constructor. intros [H|H]; discriminate H.
Defined.

(** X6.  Removing a node and then adding the same node back keeps the
    nodes up to their order: the node moves to the end of the sequence.  The
    connections are the same and nothing fails. *)
Theorem remove_then_add_moves_to_end {P} (c : bool) (i : nat) (rm add : DiffOp P)
    (st : LoopState P) (k : nat) (n : WorkflowNode P) :
  op_type rm = "removeNode" →
  op_type add = "addNode" →
  list_find (matches rm) (wf_nodes (workflow st)) = Some (k, n) →
  op_node add = n →
  let st' := runOperations c i [rm; add] st in
  wf_nodes (workflow st') = delete k (wf_nodes (workflow st)) ++ [n] ∧
  wf_nodes (workflow st') ≡ₚ wf_nodes (workflow st) ∧
  wf_connections (workflow st') = wf_connections (workflow st) ∧
  failed st' = failed st.
Proof.
  intros Hrm Hadd Hfind Hn. cbn zeta. cbn [runOperations].
  destruct (acts_on_found i rm (workflow st) k n Hfind) as [H1 _].
  rewrite (H1 Hrm). cbn [workflow applied failed].
  assert (H2 : ∀ w', applyOperation (S i) add w' =
                 Applied (set_nodes w' (wf_nodes w' ++ [n]))
                   (mkApplied (S i) "addNode" (node_name n) None)).
  { intros w'. unfold applyOperation. by rewrite Hadd, Hn. }
  rewrite H2. cbn [workflow applied failed set_nodes wf_nodes wf_connections].
  split_and!; [done| |done|done].
  apply list_find_Some in Hfind as (Hk & _ & _).
  rewrite (delete_Permutation _ _ _ Hk) at 2. by rewrite Permutation_app_comm.
Qed.

Lemma remove_then_add_moves_to_end_witness :
  let a := Sample.node "a" "A" "n8n-nodes-base.set" in
  let b := Sample.node "b" "B" "n8n-nodes-base.set" in
  let w := Sample.graph [a; b] (Sample.link "B" "A") in
  let rm := Sample.op "removeNode" (Some "a") None in
  let add := mkOp "addNode" a None None Sample.no_patch None None [] in
  let st' := runOperations false 0 [rm; add] (mkLoop w [] [] false) in
  wf_nodes (workflow st') = [b; a] ∧ wf_connections (workflow st') = Sample.link "B" "A".
Proof.
  intros a b w rm add.
  destruct (remove_then_add_moves_to_end false 0 rm add (mkLoop w [] [] false) 0 a)
    as (H1 & _ & H3 & _); [reflexivity..|].
  split; [exact H1|exact H3].
Defined.

(** X7.  An [updateNode] operation whose [updates] has none of the
    properties of a node leaves the graph exactly as it was, and is still
    recorded as applied under the name of the node it targets. *)
Theorem updateNode_without_updates_changes_nothing {P} (i : nat) (op : DiffOp P)
    (w : Workflow P) (k : nat) (n : WorkflowNode P) :
  op_type op = "updateNode" →
  op_updates op = mkPatch None None None None None None None →
  list_find (matches op) (wf_nodes w) = Some (k, n) →
  applyOperation i op w = Applied w (mkApplied i "updateNode" (node_name n) None).
Proof.
  intros Ht Hp Hfind.
  destruct (acts_on_found i op w k n Hfind) as (_ & H & _). rewrite (H Ht), Hp.
  assert (Hn : merge_node n (mkPatch None None None None None None None) = n)
    by (by destruct n).
  rewrite Hn. apply list_find_Some in Hfind as (Hk & _ & _).
  by rewrite (list_insert_id _ _ _ Hk), set_nodes_same.
Qed.

Lemma updateNode_without_updates_changes_nothing_witness :
  let w := Sample.graph [Sample.bare "a" "Start"] [] in
  let run := updatePartialWorkflowHandler
               (Sample.batch [Sample.op "updateNode" None (Some "Start")] None None)
               (Sample.remote w) in
  applyOperation 0 (Sample.op "updateNode" None (Some "Start")) w =
    Applied w (mkApplied 0 "updateNode" (Some "Start") None) ∧
  writes run.2 = [PutCall "wf1" w].
Proof.
  intros w run. split; [|reflexivity].
  apply (updateNode_without_updates_changes_nothing 0 _ w 0 (Sample.bare "a" "Start"));
    reflexivity.
Defined.

(** X8.  Of two [enableNode] or [disableNode] operations in a row with
    the same node reference the second decides: the targeted node ends
    with the [disabled] flag of the second operation, the rest of the graph
    is untouched. *)
Theorem last_toggle_wins {P} (c : bool) (i : nat) (op1 op2 : DiffOp P) (st : LoopState P)
    (k : nat) (n : WorkflowNode P) :
  op_type op1 = "enableNode" ∨ op_type op1 = "disableNode" →
  op_type op2 = "enableNode" ∨ op_type op2 = "disableNode" →
  op_nodeId op2 = op_nodeId op1 →
  op_nodeName op2 = op_nodeName op1 →
  list_find (matches op1) (wf_nodes (workflow st)) = Some (k, n) →
  workflow (runOperations c i [op1; op2] st) =
  set_nodes (workflow st)
    (<[k := set_disabled n (String.eqb (op_type op2) "disableNode")]>
       (wf_nodes (workflow st))).
Proof.
  intros Ht1 Ht2 Hid Hname Hfind. cbn [runOperations].
  set (b1 := String.eqb (op_type op1) "disableNode").
  set (b2 := String.eqb (op_type op2) "disableNode").
  assert (H1 : ∃ a, applyOperation i op1 (workflow st) =
                 Applied (set_nodes (workflow st)
                            (<[k := set_disabled n b1]> (wf_nodes (workflow st)))) a).
  { destruct (acts_on_found i op1 (workflow st) k n Hfind) as (_ & _ & He & Hd).
    unfold b1. destruct Ht1 as [Ht|Ht].
    - rewrite (He Ht), Ht. by eexists.
    - rewrite (Hd Ht), Ht. by eexists. }
  destruct H1 as [a1 ->]. cbn [workflow applied failed].
  pose proof (list_find_toggled op1 op2 _ k n b1 Hid Hname Hfind) as Hfind2.
  assert (H2 : ∃ a, applyOperation (S i) op2
                 (set_nodes (workflow st)
                    (<[k := set_disabled n b1]> (wf_nodes (workflow st)))) =
                 Applied (set_nodes (workflow st)
                            (<[k := set_disabled n b2]> (wf_nodes (workflow st)))) a).
  { destruct (acts_on_found (S i) op2
                (set_nodes (workflow st) (<[k := set_disabled n b1]> (wf_nodes (workflow st))))
                k _ Hfind2) as (_ & _ & He & Hd).
    unfold b2. cbn [set_nodes wf_nodes wf_id wf_name wf_connections wf_settings] in *.
    destruct Ht2 as [Ht|Ht].
    - rewrite (He Ht), Ht, list_insert_insert_eq. by eexists.
    - rewrite (Hd Ht), Ht, list_insert_insert_eq. by eexists. }
  destruct H2 as [a2 ->]. done.
Qed.

Lemma last_toggle_wins_witness :
  let w := Sample.graph [Sample.bare "a" "Start"] [] in
  let off := Sample.op "disableNode" None (Some "Start") in
  let on := Sample.op "enableNode" None (Some "Start") in
  workflow (runOperations false 0 [off; on] (mkLoop w [] [] false)) =
  Sample.graph [set_disabled (Sample.bare "a" "Start") false] [].
Proof.
  intros w off on.
  rewrite (last_toggle_wins false 0 off on (mkLoop w [] [] false) 0 (Sample.bare "a" "Start"));
    [reflexivity|by right|by left|reflexivity|reflexivity|reflexivity].
Defined.

(** X9.  [updateSettings] always applies.  In the settings it leaves,
    a key of the operation has the value of the operation and every other
    key keeps the value the workflow had. *)
Theorem updateSettings_merges_shallowly {P} (i : nat) (op : DiffOp P) (w : Workflow P) :
  op_type op = "updateSettings" →
  ∃ merged,
    applyOperation i op w =
      Applied (set_settings w (Some merged)) (mkApplied i "updateSettings" None None) ∧
    ∀ key, merged !! key =
           match default ∅ (op_settings op) !! key with
           | Some v => Some v
           | None => default ∅ (wf_settings w) !! key
           end.
Proof.
  intros Ht. exists (merge_settings (wf_settings w) (op_settings op)). split.
  - unfold applyOperation. by rewrite Ht.
  - intros key. unfold merge_settings. rewrite lookup_union.
    destruct (default ∅ (op_settings op) !! key) as [v|];
      destruct (default ∅ (wf_settings w) !! key); done.
Qed.

Lemma updateSettings_merges_shallowly_witness :
  let old : gmap string SettingValue :=
    {[ "timezone" := SettingString "UTC"; "executionOrder" := SettingString "v0" ]} in
  let new : gmap string SettingValue :=
    {[ "executionOrder" := SettingString "v1"; "saveManualExecutions" := SettingBool true ]} in
  let w := mkWorkflow (Some "wf1") (Some "Sample") [Sample.bare "a" "Start"] [] (Some old) in
  let op := mkOp "updateSettings" Sample.no_node None None Sample.no_patch None (Some new) [] in
  ∃ merged,
    applyOperation 0 op w =
      Applied (set_settings w (Some merged)) (mkApplied 0 "updateSettings" None None) ∧
    merged !! "timezone" = Some (SettingString "UTC") ∧
    merged !! "executionOrder" = Some (SettingString "v1") ∧
    merged !! "saveManualExecutions" = Some (SettingBool true).
Proof.
  intros old new w op.
  destruct (updateSettings_merges_shallowly 0 op w eq_refl) as (merged & H1 & H2).
  exists merged. split; [exact H1|]. rewrite !H2. split_and!; reflexivity.
Defined.

(** ** Further properties of the validation *)

Section ValidationMore.

Context {P : Type}.
Implicit Types (n : WorkflowNode P) (nodes : list (WorkflowNode P)) (w : Workflow P).

Lemma truthy_string_present (o : option string) :
  Js.truthy_string o = true ↔ present o.
Proof.
  unfold present. destruct o as [s|]; simpl.
  - rewrite negb_true_iff. destruct (String.eqb_spec s EmptyString) as [->|Hne].
    + split; [done|]. by intros (? & [= <-] & ?).
    + split; [|done]. intros _. by exists s.
  - split; [done|]. by intros (? & ? & _).
Qed.

Lemma concat_fmap_nil {A B} (f : A → list B) (l : list A) :
  concat (f <$> l) = [] ↔ Forall (λ x, f x = []) l.
Proof.
  induction l as [|x l IH]; [by split|].
  rewrite fmap_cons, concat_cons, Forall_cons, <- IH.
  split; [by intros [-> ->]%app_eq_nil|by intros [-> ->]].
Qed.

Lemma node_errors_nil n : node_errors n = [] ↔ node_complete n.
Proof.
  unfold node_errors, node_complete. rewrite <- !truthy_string_present.
  destruct (Js.truthy_string (node_id n)), (Js.truthy_string (node_name n)),
    (Js.truthy_string (node_type n)); simpl; split; try done; by intros (? & ? & ?).
Qed.

Lemma has_name_elem nodes s : has_name nodes s = true ↔ Some s ∈ node_name <$> nodes.
Proof. unfold has_name. by rewrite bool_decide_eq_true. Qed.

Lemma target_errors_nil nodes source t :
  target_errors nodes source t = [] ↔ Some (target_node t) ∈ node_name <$> nodes.
Proof.
  unfold target_errors. rewrite <- has_name_elem. by destruct (has_name _ _).
Qed.

Lemma source_errors_nil nodes entry :
  source_errors nodes entry = [] ↔
  Some entry.1 ∈ node_name <$> nodes ∧
  ∀ output groups group t,
    (output, groups) ∈ entry.2 → group ∈ groups → t ∈ group →
    Some (target_node t) ∈ node_name <$> nodes.
Proof.
  unfold source_errors. rewrite <- has_name_elem.
  split.
  - intros [H1 H2]%app_eq_nil. split; [by destruct (has_name _ _)|].
    intros output groups group t Ho Hg Ht.
    rewrite concat_fmap_nil, Forall_forall in H2. specialize (H2 _ Ho). cbn in H2.
    rewrite concat_fmap_nil, Forall_forall in H2. specialize (H2 _ Hg). cbn in H2.
    rewrite concat_fmap_nil, Forall_forall in H2.
    apply (target_errors_nil nodes entry.1 t). by apply H2.
  - intros [H1 H2]. rewrite H1. cbn [app].
    apply concat_fmap_nil, Forall_forall. intros [output groups] Ho.
    apply concat_fmap_nil, Forall_forall. intros group Hg.
    apply concat_fmap_nil, Forall_forall. intros t Ht.
    apply target_errors_nil. by eapply H2.
Qed.

(** The report of a validation that does not throw. *)
Lemma validate_inv id options w resp :
  validate id options w = inr resp →
  ∃ triggers,
    trigger_nodes (wf_nodes w) = inr triggers ∧
    let errors :=
      (if not_false (validateNodes options) then concat (node_errors <$> wf_nodes w) else []) ++
      (if not_false (validateConnections options)
       then concat (source_errors (wf_nodes w) <$> wf_connections w) else []) in
    let warnings :=
      if not_false (validateNodes options) then concat (node_warnings <$> wf_nodes w) else [] in
    resp = ValidationReport id (wf_name w) (bool_decide (length errors = 0))
             (mkSummary (length (wf_nodes w)) (length (enabled_nodes (wf_nodes w)))
                (length triggers) (length errors) (length warnings))
             errors warnings.
Proof.
  unfold validate.
  destruct (if not_false (validateExpressions options) then _ else _) as [e|[]]; [done|].
  cbn [mbind throws_bind].
  destruct (trigger_nodes (wf_nodes w)) as [e|triggers]; [done|].
  intros [= <-]. by exists triggers.
Qed.

End ValidationMore.

(** X10.  When the validation answers with a report, the workflow was
    in the store and: [valid] is true exactly when the list of errors is
    empty; that list is empty exactly when every node has a non-empty id,
    name and type (unless [validateNodes] is false) and every source and
    target of the connections is the name of a node (unless
    [validateConnections] is false); the two counts of the summary are the
    lengths of the two lists, [totalNodes] is the number of nodes, and
    neither [enabledNodes] nor [triggerNodes] exceeds it. *)
Theorem validity_characterised {P} (args : ValidateArgs) (r : Remote P)
    (wid : string) (wname : option string) (valid : bool) (summary : Summary)
    (errors warnings : list Issue) :
  (validateWorkflowHandler args r).1 =
    ValidationReport wid wname valid summary errors warnings →
  ∃ w, stored r !! va_id args = Some w ∧
    (valid = true ↔ errors = []) ∧
    (errors = [] ↔
       (not_false (validateNodes (options_of args)) = true →
          Forall node_complete (wf_nodes w)) ∧
       (not_false (validateConnections (options_of args)) = true →
          connections_closed (wf_nodes w) (wf_connections w))) ∧
    errorCount summary = length errors ∧
    warningCount summary = length warnings ∧
    totalNodes summary = length (wf_nodes w) ∧
    (enabledNodes summary ≤ totalNodes summary)%nat ∧
    (triggerNodes summary ≤ totalNodes summary)%nat.
Proof.
  unfold validateWorkflowHandler, getWorkflow.
  destruct (stored r !! va_id args) as [w|] eqn:Hget; [|done]. cbn [fst].
  fold (options_of args).
  destruct (validate (va_id args) (options_of args) w) as [e|resp] eqn:Hval; [done|].
  cbn [fst]. intros ->. apply validate_inv in Hval as (triggers & Htr & Hresp).
  cbn zeta in Hresp. injection Hresp as -> -> -> -> -> ->.
  exists w. split; [done|]. split_and!.
  - rewrite bool_decide_eq_true. split; [by intros ?%nil_length_inv|by intros ->].
  - split.
    + intros [H1 H2]%app_eq_nil. split; intros Hon; rewrite Hon in *.
      * apply concat_fmap_nil in H1. eapply Forall_impl; [exact H1|].
        intros n. by apply node_errors_nil.
      * intros source outputs Hin. rewrite concat_fmap_nil, Forall_forall in H2.
        by apply (source_errors_nil (wf_nodes w) (source, outputs)), H2.
    + intros [H1 H2].
      destruct (not_false (validateNodes (options_of args))).
      * rewrite (proj2 (concat_fmap_nil _ _)).
        2:{ eapply Forall_impl; [by apply H1|]. intros n. by apply node_errors_nil. }
        cbn [app]. destruct (not_false (validateConnections (options_of args))); [|done].
        apply concat_fmap_nil, Forall_forall. intros [source outputs] Hin.
        apply source_errors_nil. by apply (H2 eq_refl).
      * cbn [app]. destruct (not_false (validateConnections (options_of args))); [|done].
        apply concat_fmap_nil, Forall_forall. intros [source outputs] Hin.
        apply source_errors_nil. by apply (H2 eq_refl).
  - done.
  - done.
  - done.
  - cbn. unfold enabled_nodes. apply length_filter.
  - cbn. rewrite (trigger_nodes_counted _ _ Htr). apply length_filter.
Qed.

Lemma validity_characterised_witness :
  let a := Sample.node "a" "A" "n8n-nodes-base.set" in
  let w := Sample.graph [a] (Sample.link "A" "B") in
  ¬ connections_closed (wf_nodes w) (wf_connections w).
Proof.
  intros a w Hclosed.
  destruct (validity_characterised (mkValidateArgs "wf1" None) (Sample.remote w)
              "wf1" (Some "Sample") false (mkSummary 1 1 0 1 0)
              [ConnectionIssue "A -> B" "Target node not found: B"] [] eq_refl)
    as (w' & Hw' & _ & [_ Hnil] & _).
  assert (w' = w) as ->.
  { cbn [Sample.remote stored va_id] in Hw'. rewrite lookup_singleton_eq in Hw'. congruence. }
  discriminate Hnil. split; [|done]. intros _. repeat constructor; by eexists.
Defined.

Section Dangling.

Context {P : Type}.
Implicit Types (n : WorkflowNode P) (nodes : list (WorkflowNode P)) (w : Workflow P).

(** A target that names no node is reported. *)
Lemma dangling_target_reported nodes source outputs output groups group t :
  (output, groups) ∈ outputs → group ∈ groups → t ∈ group →
  Some (target_node t) ∉ node_name <$> nodes →
  ConnectionIssue (source +:+ " -> " +:+ target_node t)
    ("Target node not found: " +:+ target_node t)
  ∈ source_errors nodes (source, outputs).
Proof.
  intros Ho Hg Ht Hnot. unfold source_errors. apply elem_of_app. right.
  apply elem_of_concat_fmap. exists (output, groups). split; [done|].
  apply elem_of_concat_fmap. exists group. split; [done|].
  apply elem_of_concat_fmap. exists t. split; [done|].
  unfold target_errors. cbn [fst].
  destruct (has_name nodes (target_node t)) eqn:Hhas; [|left].
  by apply has_name_elem in Hhas.
Qed.

End Dangling.

(** X11.  The engine does not clean up connections: when [removeNode]
    removes the only node called [name] while a connection still targets
    [name], the operation is applied, and every validation of the resulting
    graph that checks connections reports it as not valid, with the error
    that the target node is not found. *)
Theorem removed_node_leaves_dangling_target {P} (i : nat) (op : DiffOp P) (w : Workflow P)
    (k : nat) (n : WorkflowNode P) (name source output : string)
    (outputs : list (string * list (list ConnectionTarget)))
    (groups : list (list ConnectionTarget)) (group : list ConnectionTarget)
    (t : ConnectionTarget) :
  op_type op = "removeNode" →
  list_find (matches op) (wf_nodes w) = Some (k, n) →
  node_name n = Some name →
  (∀ j m, wf_nodes w !! j = Some m → j ≠ k → node_name m ≠ Some name) →
  (source, outputs) ∈ wf_connections w →
  (output, groups) ∈ outputs → group ∈ groups → t ∈ group →
  target_node t = name →
  ∃ w' a,
    applyOperation i op w = Applied w' a ∧
    ∀ id options wid wname valid summary errors warnings,
      not_false (validateConnections options) = true →
      validate id options w' =
        inr (ValidationReport wid wname valid summary errors warnings) →
      valid = false ∧
      ConnectionIssue (source +:+ " -> " +:+ name) ("Target node not found: " +:+ name)
      ∈ errors.
Proof.
  intros Ht Hfind Hname Huniq Hsrc Hout Hgrp Htgt Htn.
  destruct (acts_on_found i op w k n Hfind) as [Hrm _].
  eexists _, _. split; [exact (Hrm Ht)|].
  intros id options wid wname valid summary errors warnings Hon Hval.
  apply validate_inv in Hval as (triggers & _ & Hresp). cbn zeta in Hresp.
  rewrite Hon in Hresp. cbn [set_nodes wf_nodes wf_connections] in Hresp.
  injection Hresp as _ _ -> _ ->.
  assert (Hin : ConnectionIssue (source +:+ " -> " +:+ name)
                  ("Target node not found: " +:+ name)
                ∈ concat (source_errors (delete k (wf_nodes w)) <$> wf_connections w)).
  { apply elem_of_concat_fmap. exists (source, outputs). split; [done|].
    rewrite <- Htn. eapply dangling_target_reported; [done..|].
    rewrite Htn. intros (m & Hm & Hin)%list_elem_of_fmap.
    apply list_elem_of_lookup in Hin as [j Hj].
    destruct (decide (j < k)) as [Hlt|Hge].
    - rewrite list_lookup_delete_lt in Hj by done. apply (Huniq j m Hj); [lia|done].
    - rewrite list_lookup_delete_ge in Hj by lia. apply (Huniq (S j) m Hj); [lia|done]. }
  split.
  - apply bool_decide_eq_false. intros Hlen%nil_length_inv.
    apply app_eq_nil in Hlen as [_ Hnil]. rewrite Hnil in Hin. by apply elem_of_nil in Hin.
  - apply elem_of_app. by right.
Qed.

Lemma removed_node_leaves_dangling_target_witness :
  let a := Sample.node "a" "A" "n8n-nodes-base.set" in
  let b := Sample.node "b" "B" "n8n-nodes-base.set" in
  let w := Sample.graph [a; b] (Sample.link "A" "B") in
  let op := Sample.op "removeNode" None (Some "B") in
  ∃ w' a',
    applyOperation 0 op w = Applied w' a' ∧
    ∀ valid summary errors warnings,
      validate "wf1" (mkValidateOptions None None None None) w' =
        inr (ValidationReport "wf1" (Some "Sample") valid summary errors warnings) →
      valid = false.
Proof.
  intros a b w op.
  destruct (removed_node_leaves_dangling_target 0 op w 1 b "B" "A" "main"
              [("main", [[mkTarget "B" "main" 0]])] [[mkTarget "B" "main" 0]]
              [mkTarget "B" "main" 0] (mkTarget "B" "main" 0))
    as (w' & a' & Hstep & Hval).
  - reflexivity.
  - reflexivity.
  - reflexivity.
  - intros [|[|j]] m Hj Hne; simplify_eq/=; discriminate.
  - left.
  - left.
  - left.
  - left.
  - reflexivity.
  - exists w', a'. split; [exact Hstep|].
    intros valid summary errors warnings Hv.
    by destruct (Hval "wf1" (mkValidateOptions None None None None) _ _ _ _ _ _ eq_refl Hv).
Defined.

(** ** Further properties of the autofix *)

Section AutofixMore.

Context {P : Type} (stringify : P → string) (path : P → bool).
Implicit Types (n : WorkflowNode P) (nodes cur : list (WorkflowNode P)) (w : Workflow P).
Implicit Types (f : Fix) (fixes : list Fix) (r : Remote P).

(** A finding of another type changes nothing. *)
Lemma applyFix_other (st : list (WorkflowNode P) * bool) f :
  ¬ typeVersion_finding f → applyFix st f = st.
Proof.
  intros Hf. unfold applyFix. destruct (list_find _ st.1) as [[k n]|]; [|done].
  destruct (String.eqb_spec (fix_type f) "typeversion-missing"); done.
Qed.

Lemma applyFixes_others (st : list (WorkflowNode P) * bool) fixes :
  Forall (λ f, ¬ typeVersion_finding f) fixes → foldl applyFix st fixes = st.
Proof.
  revert st. induction fixes as [|f fixes IH]; intros st Hall; [done|].
  apply Forall_cons in Hall as [Hf Hall]. cbn [foldl]. by rewrite applyFix_other, IH.
Qed.

Lemma expression_findings_other nodes es :
  for_each (expression_fixes stringify) nodes = inr es →
  Forall (λ f, ¬ typeVersion_finding f) es.
Proof.
  intros H. eapply for_each_Forall; [|exact H]. intros n ys _ Hys.
  eapply Forall_impl; [by apply (expression_fixes_shape stringify)|].
  unfold typeVersion_finding. intros f [_ ->]. discriminate.
Qed.

Lemma webhook_findings_other nodes hs :
  for_each (webhook_fixes path) nodes = inr hs →
  Forall (λ f, ¬ typeVersion_finding f) hs.
Proof.
  intros H. eapply for_each_Forall; [|exact H]. intros n ys _ Hys.
  eapply Forall_impl; [by apply (webhook_fixes_shape path)|].
  unfold typeVersion_finding. intros f [_ ->]. discriminate.
Qed.

Lemma typeVersion_findings_all nodes :
  Forall typeVersion_finding (concat (typeVersion_fixes <$> nodes)).
Proof.
  apply Forall_concat, Forall_fmap, Forall_forall. intros n _.
  eapply Forall_impl; [apply typeVersion_fixes_shape|]. by intros f [_ ?].
Qed.

(** With pairwise distinct names, the repair of all findings repairs
    exactly the nodes whose [typeVersion] is falsy. *)
Lemma applyFixes_detected nodes fixes :
  NoDup (node_name <$> nodes) →
  detect stringify path nodes = inr fixes →
  (applyFixes nodes fixes).1 = repair <$> nodes.
Proof.
  intros Hnodup (es & hs & He & Hh & ->)%detect_inv.
  unfold applyFixes. rewrite !foldl_app.
  rewrite (applyFixes_others _ es) by (by eapply expression_findings_other).
  rewrite (applyFixes_others _ hs) by (by eapply webhook_findings_other).
  apply (applyFixes_repair [] nodes false Hnodup).
Qed.

Lemma filter_all {A} (Q : A → Prop) `{∀ x, Decision (Q x)} (l : list A) :
  Forall Q l → filter Q l = l.
Proof.
  induction 1 as [|x l Hx _ IH]; [done|]. by rewrite filter_cons_True, IH.
Qed.

Lemma filter_none {A} (Q : A → Prop) `{∀ x, Decision (Q x)} (l : list A) :
  Forall (λ x, ¬ Q x) l → filter Q l = [].
Proof.
  induction 1 as [|x l Hx _ IH]; [done|]. by rewrite filter_cons_False, IH.
Qed.

(** The findings of a repaired graph are the findings of the other two
    detectors. *)
Lemma detect_repaired nodes fixes :
  detect stringify path nodes = inr fixes →
  detect stringify path (repair <$> nodes) =
  inr (filter (λ f, ¬ typeVersion_finding f) fixes).
Proof.
  intros (es & hs & He & Hh & ->)%detect_inv. unfold detect.
  rewrite (for_each_fmap (expression_fixes stringify) repair)
    by (intros n; unfold repair; by destruct (Js.truthy_number _)).
  rewrite (for_each_fmap (webhook_fixes path) repair)
    by (intros n; unfold repair; by destruct (Js.truthy_number _)).
  rewrite He, Hh. cbn [mbind throws_bind]. rewrite typeVersion_fixes_repaired.
  rewrite !filter_app.
  rewrite (filter_all _ es) by (by eapply expression_findings_other).
  rewrite (filter_all _ hs) by (by eapply webhook_findings_other).
  rewrite (filter_none _ (concat _)); [done|].
  eapply Forall_impl; [apply typeVersion_findings_all|]. intros f Hf Hn. by apply Hn.
Qed.

(** Without a finding of type [typeversion-missing] the repair has
    nothing to change. *)
Lemma repair_nothing nodes fixes :
  detect stringify path nodes = inr fixes →
  ¬ Exists typeVersion_finding fixes →
  repair <$> nodes = nodes.
Proof.
  intros (es & hs & _ & _ & ->)%detect_inv Hnone.
  rewrite !Exists_app in Hnone.
  assert (Htv : ¬ Exists typeVersion_finding (concat (typeVersion_fixes <$> nodes)))
    by tauto.
  clear Hnone. induction nodes as [|n nodes IH]; [done|].
  rewrite fmap_cons, concat_cons, Exists_app in Htv.
  rewrite fmap_cons, IH by tauto. f_equal.
  unfold repair. destruct (Js.truthy_number (node_typeVersion n)) eqn:Hn; [done|].
  exfalso. apply Htv. left. unfold typeVersion_fixes. rewrite Hn. by left.
Qed.

End AutofixMore.

(** X12.  Without [applyFixes] the autofix handler only reads: the
    remote is left as the GET leaves it, and a report lists the findings of
    the detection on the stored nodes, with [fixesFound] their number and
    [fixesApplied] zero. *)
Theorem autofix_preview_never_writes {P} (stringify : P → string) (path : P → bool)
    (args : AutofixArgs) (r : Remote P) :
  Js.truthy_bool (af_applyFixes args) = false →
  let run := autofixWorkflowHandler stringify path args r in
  run.2 = fetched (af_id args) r ∧
  match run.1 with
  | AutofixReport _ _ found applied_count fixes _ =>
      applied_count = 0 ∧ found = length fixes ∧
      ∃ w, stored r !! af_id args = Some w ∧ detect stringify path (wf_nodes w) = inr fixes
  | AutofixError _ => True
  end.
Proof.
  intros Ha. cbn zeta. unfold autofixWorkflowHandler, getWorkflow, fetched.
  destruct (stored r !! af_id args) as [w|] eqn:Hget; [|done].
  destruct (detect stringify path (wf_nodes w)) as [e|fixes] eqn:Hdet; [done|].
  rewrite Ha. cbn [fst snd]. split_and!; [done..|]. by exists w.
Qed.

Lemma autofix_preview_never_writes_witness :
  let a := mkNode (Some "a") (Some "A") (Some "n8n-nodes-base.set") None
             (Some [0%Q; 0%Q]) (Some Sample.NoParams) None in
  let r := Sample.remote (Sample.graph [a] []) in
  let run := autofixWorkflowHandler Sample.stringify Sample.has_path
               (mkAutofixArgs "wf1" None None None None) r in
  run.2 = fetched "wf1" r ∧
  match run.1 with
  | AutofixReport _ _ found applied_count _ _ => found = 1 ∧ applied_count = 0
  | AutofixError _ => False
  end.
Proof.
  intros a r.
  destruct (autofix_preview_never_writes Sample.stringify Sample.has_path
              (mkAutofixArgs "wf1" None None None None) r eq_refl) as [H1 H2].
  split; [exact H1|]. vm_compute. done.
Defined.

(** X13.  With [applyFixes], on a stored workflow whose node names are
    distinct: the first run stores the graph with [typeVersion] repaired; a
    second run on the result finds exactly the findings of the first run
    that are not about [typeVersion], reports the same number as applied,
    and neither changes the store nor sends another PUT. *)
Theorem autofix_rerun_repeats_other_findings {P} (stringify : P → string) (path : P → bool)
    (args : AutofixArgs) (r : Remote P) (w : Workflow P) (fixes : list Fix) :
  af_applyFixes args = Some true →
  stored r !! af_id args = Some w →
  NoDup (node_name <$> wf_nodes w) →
  detect stringify path (wf_nodes w) = inr fixes →
  let first := autofixWorkflowHandler stringify path args r in
  let second := autofixWorkflowHandler stringify path args first.2 in
  let rest := filter (λ f, ¬ typeVersion_finding f) fixes in
  stored first.2 !! af_id args = Some (set_nodes w (repair <$> wf_nodes w)) ∧
  second.1 = AutofixReport (af_id args) (wf_name w) (length rest) (length rest) rest
               (autofix_message true (length rest)) ∧
  stored second.2 = stored first.2 ∧
  writes second.2 = writes first.2.
Proof.
  intros Ha Hget Hnodup Hdet. cbn zeta.
  rewrite (autofix_applied stringify path args r w fixes Ha Hget Hdet). cbn zeta.
  rewrite (applyFixes_detected stringify path _ _ Hnodup Hdet).
  assert (Hflag : (applyFixes (wf_nodes w) fixes).2 =
                  bool_decide (Exists typeVersion_finding fixes)).
  { unfold applyFixes.
    by destruct (applyFixes_spec (wf_nodes w) false fixes) as [_ ->];
      [eapply detect_names|]. }
  rewrite Hflag. cbn [fst snd].
  set (w' := set_nodes w (repair <$> wf_nodes w)).
  set (r1 := if bool_decide (Exists typeVersion_finding fixes) then _ else _).
  assert (Hget' : stored r1 !! af_id args = Some w').
  { unfold r1. destruct (bool_decide (Exists typeVersion_finding fixes)) eqn:Hex.
    - cbn [stored]. apply lookup_insert_eq.
    - apply bool_decide_eq_false in Hex. unfold fetched, w'. cbn [stored].
      by rewrite (repair_nothing stringify path _ _ Hdet Hex), set_nodes_same. }
  pose proof (detect_repaired stringify path _ _ Hdet) as Hdet'.
  split; [done|].
  rewrite (autofix_applied stringify path args r1 w' _ Ha Hget' Hdet'). cbn zeta.
  unfold applyFixes.
  destruct (applyFixes_spec (wf_nodes w')
              false (filter (λ f, ¬ typeVersion_finding f) fixes)) as [_ ->].
  { eapply detect_names. exact Hdet'. }
  rewrite bool_decide_eq_false_2.
  2:{ rewrite Exists_exists. intros (f & [Hn _]%list_elem_of_filter & Hf). by apply Hn. }
  cbn [orb fst snd]. split_and!; [done|done|apply writes_fetched].
Qed.

Lemma autofix_rerun_repeats_other_findings_witness :
  let request := mkNode (Some "a") (Some "Fetch") (Some "n8n-nodes-base.httpRequest")
                   None (Some [0%Q; 0%Q]) (Some Sample.UrlExpression) None in
  let hook := mkNode (Some "b") (Some "Reply Now") (Some "n8n-nodes-base.respondToWebhook")
                (Some 1%Q) (Some [0%Q; 0%Q]) (Some Sample.NoParams) None in
  let args := mkAutofixArgs "wf1" (Some true) None None None in
  let r := Sample.remote (Sample.graph [request; hook] []) in
  let first := autofixWorkflowHandler Sample.stringify Sample.has_path args r in
  let second := autofixWorkflowHandler Sample.stringify Sample.has_path args first.2 in
  match first.1, second.1 with
  | AutofixReport _ _ _ n1 _ _, AutofixReport _ _ _ n2 fixes _ =>
      n1 = 3 ∧ n2 = 2 ∧
      fix_type <$> fixes = ["expression-format"; "webhook-missing-path"]
  | _, _ => False
  end ∧
  writes second.2 = writes first.2.
Proof.
  intros request hook args r.
  destruct (autofix_rerun_repeats_other_findings Sample.stringify Sample.has_path args r
              (Sample.graph [request; hook] [])
              (match detect Sample.stringify Sample.has_path [request; hook] with
               | inr fixes => fixes
               | inl _ => []
               end) eq_refl eq_refl) as (_ & H2 & _ & H4).
  - apply (bool_decide_unpack _). vm_compute. exact I.
  - reflexivity.
  - split; [|exact H4]. vm_compute. done.
Defined.

Section Regex.

Local Abbreviation not_close := (λ x, negb (Ascii.eqb x "}")).

Lemma append_nil_l (s : string) : EmptyString +:+ s = s.
Proof. reflexivity. Qed.

Lemma append_assoc (a b c : string) : (a +:+ b) +:+ c = a +:+ b +:+ c.
Proof. induction a as [|x a IH]; [done|]. by rewrite !append_cons, IH. Qed.

Lemma skip_body_cons (c : ascii) (s : string) :
  BadExpression.skip_body (String c s) =
  if Ascii.eqb c "}" then String c s else BadExpression.skip_body s.
Proof. reflexivity. Qed.

Lemma skip_body_split (s : string) :
  ∃ body, s = body +:+ BadExpression.skip_body s ∧ all_chars not_close body = true.
Proof.
  induction s as [|c s (body & Hs & Hb)]; [by exists EmptyString|].
  rewrite skip_body_cons. destruct (Ascii.eqb c "}") eqn:Hc.
  - by exists EmptyString.
  - exists (String c body). rewrite append_cons, <- Hs. split; [done|].
    cbn [all_chars]. by rewrite Hc, Hb.
Qed.

Lemma skip_body_stops (body rest : string) :
  all_chars not_close body = true →
  BadExpression.skip_body (body +:+ String "}" rest) = String "}" rest.
Proof.
  induction body as [|c body IH]; intros Hb.
  - reflexivity.
  - cbn [all_chars] in Hb. apply andb_true_iff in Hb as [Hc Hb].
    rewrite append_cons, skip_body_cons. apply negb_true_iff in Hc. rewrite Hc. by apply IH.
Qed.

Lemma tail_matches_spec (s : string) :
  BadExpression.tail_matches s = true ↔
  ∃ c body post,
    s = String c (body +:+ "}}" +:+ post) ∧ c ≠ "{"%char ∧ c ≠ "="%char ∧
    all_chars not_close body = true.
Proof.
  split.
  - destruct s as [|c s]; [done|]. unfold BadExpression.tail_matches.
    rewrite !andb_true_iff, !negb_true_iff. intros [[Hc1 Hc2] Hp].
    apply prefix_append in Hp as [post Hp].
    destruct (skip_body_split s) as (body & Hs & Hb).
    exists c, body, post. rewrite <- Hp, <- Hs. split_and!; [done| | |done].
    + intros ->. by rewrite Ascii.eqb_refl in Hc1.
    + intros ->. by rewrite Ascii.eqb_refl in Hc2.
  - intros (c & body & post & -> & Hc1 & Hc2 & Hb). unfold BadExpression.tail_matches.
    apply Ascii.eqb_neq in Hc1, Hc2. rewrite Hc1, Hc2. cbn [negb andb].
    change ("}}" +:+ post) with (String "}" (String "}" post)).
    rewrite (skip_body_stops body _ Hb).
    apply prefix_append. by exists post.
Qed.

Lemma body_matches_cons (c : ascii) (s : string) :
  BadExpression.body_matches (String c s) =
  BadExpression.tail_matches (String c s) || (Js.is_space c && BadExpression.body_matches s).
Proof. reflexivity. Qed.

Lemma body_matches_spec (s : string) :
  BadExpression.body_matches s = true ↔
  ∃ ws rest, s = ws +:+ rest ∧ all_chars Js.is_space ws = true ∧
             BadExpression.tail_matches rest = true.
Proof.
  split.
  - induction s as [|c s IH]; [done|].
    rewrite body_matches_cons, orb_true_iff, andb_true_iff.
    intros [H|[Hc H]].
    + by exists EmptyString, (String c s).
    + destruct (IH H) as (ws & rest & -> & Hws & Ht).
      exists (String c ws), rest. split_and!; [done| |done]. cbn [all_chars]. by rewrite Hc.
  - intros (ws & rest & -> & Hws & Ht). induction ws as [|c ws IH].
    + rewrite append_nil_l. destruct rest as [|c rest]; [done|].
      by rewrite body_matches_cons, Ht.
    + cbn [all_chars] in Hws. apply andb_true_iff in Hws as [Hc Hws].
      rewrite append_cons, body_matches_cons, Hc, (IH Hws). by rewrite orb_true_r.
Qed.

Lemma matches_here_eqb (s : string) :
  BadExpression.matches_here s =
  match s with
  | String a (String b rest) =>
      Ascii.eqb a "{" && Ascii.eqb b "{" && BadExpression.body_matches rest
  | _ => false
  end.
Proof.
  destruct s as [|a [|b s]]; [reflexivity| |].
  - by destruct a as [[] [] [] [] [] [] [] []].
  - destruct a as [[] [] [] [] [] [] [] []]; try reflexivity.
    by destruct b as [[] [] [] [] [] [] [] []].
Qed.

Lemma matches_here_spec (s : string) :
  BadExpression.matches_here s = true ↔
  ∃ rest, s = "{{" +:+ rest ∧ BadExpression.body_matches rest = true.
Proof.
  rewrite matches_here_eqb. split.
  - destruct s as [|a [|b s]]; [done..|].
    rewrite !andb_true_iff. intros [[Ha%Ascii.eqb_eq Hb%Ascii.eqb_eq] H]. subst.
    by exists s.
  - by intros (rest & -> & H).
Qed.

Lemma found_cons (c : ascii) (s : string) :
  BadExpression.found (String c s) =
  BadExpression.matches_here (String c s) || BadExpression.found s.
Proof. reflexivity. Qed.

Lemma found_spec (s : string) :
  BadExpression.found s = true ↔
  ∃ pre rest, s = pre +:+ rest ∧ BadExpression.matches_here rest = true.
Proof.
  split.
  - induction s as [|c s IH]; [done|]. rewrite found_cons, orb_true_iff.
    intros [H|H].
    + by exists EmptyString, (String c s).
    + destruct (IH H) as (pre & rest & -> & Hm). by exists (String c pre), rest.
  - intros (pre & rest & -> & Hm). induction pre as [|c pre IH].
    + rewrite append_nil_l. destruct rest as [|c rest]; [done|]. by rewrite found_cons, Hm.
    + by rewrite append_cons, found_cons, IH, orb_true_r.
Qed.

(** A string of the language is found. *)
Lemma found_intro (pre ws : string) (c : ascii) (body post : string) :
  all_chars Js.is_space ws = true →
  c ≠ "{"%char → c ≠ "="%char →
  all_chars (λ x, negb (Ascii.eqb x "}")) body = true →
  BadExpression.found (pre +:+ "{{" +:+ ws +:+ String c (body +:+ "}}" +:+ post)) = true.
Proof.
  intros Hws Hc1 Hc2 Hbody. apply found_spec.
  exists pre, ("{{" +:+ ws +:+ String c (body +:+ "}}" +:+ post)). split; [done|].
  apply matches_here_spec. eexists. split; [done|].
  apply body_matches_spec. exists ws, (String c (body +:+ "}}" +:+ post)).
  split_and!; [done..|]. apply tail_matches_spec. by exists c, body, post.
Qed.

End Regex.

(** X14.  The matcher of the expression-format check accepts exactly
    the strings that contain two opening braces, then white space, then a
    character that is neither an opening brace nor the equals sign, then
    characters other than a closing brace, then two closing braces. *)
Theorem expression_detector_matches_the_pattern (s : string) :
  BadExpression.found s = true ↔ has_unprefixed_expression s.
Proof.
  unfold has_unprefixed_expression. split.
  - intros (pre & rest & -> & (rest1 & -> & Hb)%matches_here_spec)%found_spec.
    apply body_matches_spec in Hb as (ws & rest2 & -> & Hws & Ht).
    apply tail_matches_spec in Ht as (c & body & post & -> & Hc1 & Hc2 & Hbody).
    by exists pre, ws, c, body, post.
  - intros (pre & ws & c & body & post & -> & Hws & Hc1 & Hc2 & Hbody).
    by apply found_intro.
Qed.

Section Slug.

Local Abbreviation plain := (λ c, negb (Js.is_space c) && negb (is_upper c)).

Lemma lower_plain (c : ascii) :
  is_upper (Js.lower c) = false ∧ Js.is_space (Js.lower c) = Js.is_space c.
Proof. by destruct c as [[] [] [] [] [] [] [] []]. Qed.

Lemma lower_fixed (c : ascii) : is_upper c = false → Js.lower c = c.
Proof. by destruct c as [[] [] [] [] [] [] [] []]. Qed.

Lemma toLowerCase_no_upper (s : string) :
  all_chars (λ c, negb (is_upper c)) (Js.toLowerCase s) = true.
Proof.
  induction s as [|c s IH]; [done|]. cbn [Js.toLowerCase all_chars].
  destruct (lower_plain c) as [-> _]. by rewrite IH.
Qed.

Lemma hyphenate_from_plain (b : bool) (s : string) :
  all_chars (λ c, negb (is_upper c)) s = true →
  all_chars plain (Js.hyphenate_from b s) = true.
Proof.
  revert b. induction s as [|c s IH]; intros b Hs; [done|].
  cbn [all_chars] in Hs. apply andb_true_iff in Hs as [Hc Hs].
  cbn [Js.hyphenate_from]. destruct (Js.is_space c) eqn:Hsp.
  - destruct b; [by apply IH|]. cbn [all_chars]. rewrite (IH true Hs). reflexivity.
  - cbn [all_chars]. by rewrite Hsp, Hc, (IH false Hs).
Qed.

Lemma toLowerCase_fixed (s : string) :
  all_chars plain s = true → Js.toLowerCase s = s.
Proof.
  induction s as [|c s IH]; [done|]. cbn [all_chars Js.toLowerCase].
  rewrite !andb_true_iff, !negb_true_iff. intros [[_ Hu] Hs].
  by rewrite (lower_fixed c Hu), (IH Hs).
Qed.

Lemma hyphenate_fixed (s : string) :
  all_chars plain s = true → Js.hyphenate_from false s = s.
Proof.
  induction s as [|c s IH]; [done|]. cbn [all_chars Js.hyphenate_from].
  rewrite !andb_true_iff, !negb_true_iff. intros [[Hsp _] Hs].
  by rewrite Hsp, (IH Hs).
Qed.

Lemma lower_ascii (c : ascii) :
  (nat_of_ascii c <? 128)%nat = true → (nat_of_ascii (Js.lower c) <? 128)%nat = true.
Proof. by destruct c as [[] [] [] [] [] [] [] []]. Qed.

Lemma toLowerCase_ascii (s : string) :
  ascii_only s = true → ascii_only (Js.toLowerCase s) = true.
Proof.
  unfold ascii_only. induction s as [|c s IH]; [done|].
  cbn [all_chars Js.toLowerCase]. rewrite !andb_true_iff. intros [Hc Hs].
  split; [by apply lower_ascii|by apply IH].
Qed.

Lemma hyphenate_from_ascii (b : bool) (s : string) :
  ascii_only s = true → ascii_only (Js.hyphenate_from b s) = true.
Proof.
  unfold ascii_only. revert b. induction s as [|c s IH]; intros b; [done|].
  cbn [all_chars Js.hyphenate_from]. rewrite andb_true_iff. intros [Hc Hs].
  destruct (Js.is_space c).
  - destruct b; [by apply IH|]. cbn [all_chars]. by rewrite (IH true Hs).
  - cbn [all_chars]. by rewrite Hc, (IH false Hs).
Qed.

End Slug.

(** X15.  When the webhook check reports a node whose name is made of
    ASCII characters, the proposed fix quotes the slug of that name: the
    name in lower case with every run of white space replaced by one
    hyphen.  The slug is made of ASCII characters, has no white space and
    no upper-case letter, and the slug of a slug is the slug itself. *)
Theorem proposed_path_is_a_slug {P} (path : P → bool) (n : WorkflowNode P) (f : Fix)
    (name : string) :
  webhook_fixes path n = inr [f] →
  node_name n = Some name →
  ascii_only name = true →
  fix_fix f = "Add path: " +:+ Js.dquote +:+ proposed_path name +:+ Js.dquote ∧
  ascii_only (proposed_path name) = true ∧
  all_chars (λ c, negb (Js.is_space c) && negb (is_upper c)) (proposed_path name) = true ∧
  proposed_path (proposed_path name) = proposed_path name.
Proof.
  unfold webhook_fixes. destruct (node_type n) as [t|]; [|done].
  destruct (_ && _); [|done]. intros Hf Hname Hascii. rewrite Hname in Hf.
  injection Hf as <-. cbn [fix_fix].
  assert (Hplain : all_chars (λ c, negb (Js.is_space c) && negb (is_upper c))
                     (proposed_path name) = true)
    by apply hyphenate_from_plain, toLowerCase_no_upper.
  split_and!; [done| |done|].
  - by apply hyphenate_from_ascii, toLowerCase_ascii.
  - unfold proposed_path at 1. unfold Js.hyphenate.
    by rewrite (toLowerCase_fixed _ Hplain), (hyphenate_fixed _ Hplain).
Qed.

Lemma proposed_path_is_a_slug_witness :
  let hook := mkNode (Some "b") (Some "Reply  Now") (Some "n8n-nodes-base.respondToWebhook")
                (Some 1%Q) (Some [0%Q; 0%Q]) (Some Sample.NoParams) None in
  ∃ f, webhook_fixes Sample.has_path hook = inr [f] ∧
       fix_fix f = "Add path: " +:+ Js.dquote +:+ "reply-now" +:+ Js.dquote.
Proof.
  intros hook. eexists. split; [reflexivity|].
  destruct (proposed_path_is_a_slug Sample.has_path hook _ "Reply  Now"
              eq_refl eq_refl eq_refl) as (Hf & _).
  exact Hf.
Defined.

Section Marker.

Lemma found_no_open (s : string) :
  all_chars (λ x, negb (Ascii.eqb x "{")) s = true → BadExpression.found s = false.
Proof.
  induction s as [|c s IH]; [done|]. cbn [all_chars].
  rewrite andb_true_iff, negb_true_iff. intros [Hc Hs].
  rewrite found_cons, (IH Hs), orb_false_r, matches_here_eqb.
  destruct s; [done|]. by rewrite Hc.
Qed.

Lemma all_chars_app (p : ascii → bool) (a b : string) :
  all_chars p (a +:+ b) = all_chars p a && all_chars p b.
Proof.
  induction a as [|c a IH]; [done|]. rewrite append_cons. cbn [all_chars].
  by rewrite IH, andb_assoc.
Qed.

(** A match cannot start at, or inside, a marked opening. *)
Lemma found_marked (rest : string) :
  BadExpression.found (String "{" (String "{" (String "=" rest))) = BadExpression.found rest.
Proof. reflexivity. Qed.

End Marker.

(** X16.  For an expression body without braces: the expression is not
    reported when the equals sign comes directly after the two opening
    braces, but it is reported when white space stands between the braces
    and the equals sign, and when white space is followed by the body
    without an equals sign. *)
Theorem marker_must_follow_the_braces (body : string) :
  all_chars (λ x, negb (Ascii.eqb x "{")) body = true →
  all_chars (λ x, negb (Ascii.eqb x "}")) body = true →
  BadExpression.found ("{{=" +:+ body +:+ "}}") = false ∧
  BadExpression.found ("{{ =" +:+ body +:+ "}}") = true ∧
  BadExpression.found ("{{ " +:+ body +:+ "}}") = true.
Proof.
  intros Hopen Hclose. split_and!.
  - change ("{{=" +:+ body +:+ "}}") with (String "{" (String "{" (String "=" (body +:+ "}}")))).
    rewrite found_marked. apply found_no_open. by rewrite all_chars_app, Hopen.

  - apply (found_intro EmptyString EmptyString " " (String "=" body) EmptyString);
      try done; cbn [all_chars]; by rewrite Hclose.
  - by apply (found_intro EmptyString EmptyString " " body EmptyString).
Qed.

Lemma marker_must_follow_the_braces_witness :
  BadExpression.found "{{= $json.url }}" = false ∧
  BadExpression.found "{{ = $json.url }}" = true ∧
  BadExpression.found "{{ $json.url }}" = true.
Proof.
  destruct (marker_must_follow_the_braces " $json.url " eq_refl eq_refl) as (H1 & H2 & H3).
  split_and!; [exact H1| |exact H3]. reflexivity.
Defined.

(** ** Reading and testing a workflow, versions and executions *)

Section GetAndTest.

Context {P : Type}.
Implicit Types (n : WorkflowNode P) (nodes : list (WorkflowNode P)) (w : Workflow P).
Implicit Types (r : Remote P).

Lemma details_trigger_nodes_counted nodes l :
  details_trigger_nodes nodes = inr l →
  length l = length (filter (λ n, counted_as_trigger n = true) nodes) +
             length (filter (λ n, schedule_only n = true) nodes).
Proof.
  unfold details_trigger_nodes. revert l.
  induction nodes as [|n nodes IH]; intros l; [by intros [= <-]|].
  rewrite for_each_cons.
  destruct (node_type n) as [t|] eqn:Hty; [|done].
  destruct (for_each _ nodes) as [e|l']; [done|].
  intros [= <-]. rewrite length_app, (IH l' eq_refl), !filter_cons.
  assert (Hc : counted_as_trigger n = is_trigger_type t)
    by (unfold counted_as_trigger; by rewrite Hty).
  assert (Hs : schedule_only n = Js.includes t "Schedule" && negb (is_trigger_type t))
    by (unfold schedule_only; by rewrite Hty).
  assert (Hd : is_details_trigger_type t = is_trigger_type t || Js.includes t "Schedule")
    by reflexivity.
  rewrite Hc, Hs, Hd.
  destruct (is_trigger_type t), (Js.includes t "Schedule");
    repeat case_decide; try done; cbn; lia.
Qed.

Lemma details_trigger_nodes_throws nodes e :
  details_trigger_nodes nodes = inl e → ∃ n, n ∈ nodes ∧ node_type n = None.
Proof.
  intros (n & Hn & Hb)%for_each_throws. exists n. split; [done|].
  by destruct (node_type n).
Qed.

Lemma details_trigger_nodes_total nodes :
  Forall (λ n, is_Some (node_type n)) nodes → ∃ l, details_trigger_nodes nodes = inr l.
Proof.
  intros Hall. destruct (details_trigger_nodes nodes) as [e|l] eqn:H; [|by exists l].
  apply details_trigger_nodes_throws in H as (n & Hn & Hty).
  rewrite Forall_forall in Hall. destruct (Hall n Hn) as [t Ht]. congruence.
Qed.

Lemma find_trigger_none nodes :
  find_trigger nodes = inr None ↔ Forall no_external_trigger nodes.
Proof.
  induction nodes as [|n nodes IH]; [by split|].
  rewrite Forall_cons, <- IH. cbn [find_trigger]. unfold no_external_trigger.
  destruct (node_type n) as [t|].
  - unfold is_external_trigger_type.
    destruct (Js.includes t "Trigger") eqn:H1.
    { split; [done|]. intros [(t' & [= <-] & Hn & _) _].
      exfalso. by apply Hn, includes_contains. }
    destruct (Js.includes t "Webhook") eqn:H2.
    { split; [done|]. intros [(t' & [= <-] & _ & Hn & _) _].
      exfalso. by apply Hn, includes_contains. }
    destruct (Js.includes t "Form") eqn:H3.
    { split; [done|]. intros [(t' & [= <-] & _ & _ & Hn & _) _].
      exfalso. by apply Hn, includes_contains. }
    destruct (Js.includes t "Chat") eqn:H4.
    { split; [done|]. intros [(t' & [= <-] & _ & _ & _ & Hn) _].
      exfalso. by apply Hn, includes_contains. }
    cbn [orb]. split; [|by intros [_ ?]]. intros H. split; [|done].
    exists t. split_and!; [done|..]; intros Hc%includes_contains; congruence.
  - split; [done|]. by intros [(t & ? & _) _].
Qed.

Lemma find_trigger_first (pre post : list (WorkflowNode P)) n t :
  Forall no_external_trigger pre →
  node_type n = Some t →
  is_external_trigger_type t = true →
  find_trigger (pre ++ n :: post) = inr (Some (n, t)).
Proof.
  intros Hpre Hty Ht. induction Hpre as [|m pre Hm _ IH].
  - cbn [app find_trigger]. by rewrite Hty, Ht.
  - cbn [app find_trigger].
    assert (Hm' : find_trigger [m] = inr None) by (apply find_trigger_none; by constructor).
    cbn [find_trigger] in Hm'. destruct (node_type m) as [tm|]; [|done].
    destruct (is_external_trigger_type tm); [done|]. exact IH.
Qed.

End GetAndTest.

(** X17.  The two trigger counts differ.  When, on the same store, the
    [details] mode of [getWorkflowHandler] and the validation both succeed
    for an id, [nodeCount] equals [totalNodes], and the [triggerNodes] of
    the details is the [triggerNodes] of the summary plus the number of
    nodes whose type contains [Schedule] but neither [Trigger] nor
    [Webhook]. *)
Theorem details_mode_counts_schedule_nodes {P} (id : string) (options : option ValidateOptions)
    (r : Remote P) (w : Workflow P) (nodeCount count : nat)
    (wid : string) (wname : option string) (valid : bool) (summary : Summary)
    (errors warnings : list Issue) :
  (getWorkflowHandler (mkGetArgs id ModeDetails) r).1 =
    GetOk (DetailsResult w nodeCount count) →
  (validateWorkflowHandler (mkValidateArgs id options) r).1 =
    ValidationReport wid wname valid summary errors warnings →
  stored r !! id = Some w ∧
  nodeCount = totalNodes summary ∧
  count = triggerNodes summary + length (filter (λ n, schedule_only n = true) (wf_nodes w)) ∧
  ∀ n : WorkflowNode P,
    schedule_only n = true ↔
    ∃ t, node_type n = Some t ∧ contains t "Schedule" ∧
         ¬ contains t "Trigger" ∧ ¬ contains t "Webhook".
Proof.
  unfold getWorkflowHandler, validateWorkflowHandler, getWorkflow. cbn [gw_id gw_mode va_id].
  destruct (stored r !! id) as [w0|] eqn:Hget; [|done]. cbn [get_result].
  destruct (details_trigger_nodes (wf_nodes w0)) as [e|l] eqn:Hd; [done|].
  cbn [mbind throws_bind fst]. intros [= <- <- <-].
  destruct (validate id _ w0) as [e|resp] eqn:Hv; [done|]. cbn [fst]. intros ->.
  apply validate_inv in Hv as (triggers & Htr & Hresp). cbn zeta in Hresp.
  injection Hresp as _ _ _ -> _ _. cbn [totalNodes triggerNodes].
  split_and!; [done|done| |].
  - rewrite (details_trigger_nodes_counted _ _ Hd).
    by rewrite (trigger_nodes_counted _ _ Htr).
  - intros n. unfold schedule_only, is_trigger_type. destruct (node_type n) as [t|].
    + rewrite andb_true_iff, negb_true_iff, orb_false_iff, includes_contains.
      rewrite <- !not_true_iff_false, !includes_contains. split.
      * intros (? & ? & ?). by exists t.
      * by intros (t' & [= <-] & ? & ? & ?).
    + split; [done|]. by intros (? & ? & _).
Qed.

Lemma details_mode_counts_schedule_nodes_witness :
  let hourly := Sample.node "a" "Every hour" "n8n-nodes-base.Schedule" in
  let hook := Sample.node "b" "Hook" "n8n-nodes-base.respondToWebhook" in
  let w := Sample.graph [hourly; hook] [] in
  let r := Sample.remote w in
  (getWorkflowHandler (mkGetArgs "wf1" ModeDetails) r).1 = GetOk (DetailsResult w 2 2) ∧
  (validateWorkflowHandler (mkValidateArgs "wf1" None) r).1 =
    ValidationReport "wf1" (Some "Sample") true (mkSummary 2 2 1 0 0) [] [] ∧
  length (filter (λ n, schedule_only n = true) (wf_nodes w)) = 1.
Proof.
  intros hourly hook w r.
  destruct (details_mode_counts_schedule_nodes "wf1" None r w 2 2 "wf1" (Some "Sample") true
              (mkSummary 2 2 1 0 0) [] [] eq_refl eq_refl) as (_ & _ & H & _).
  split_and!; [reflexivity|reflexivity|]. cbn [triggerNodes] in H. lia.
Defined.

(** X18.  For a stored workflow the modes [full], [minimal] and
    [structure] always succeed, with the workflow, its id and name, and the
    outlines of its nodes with its connections.  The mode [details]
    succeeds exactly when every node has a type.  In every mode the handler
    does nothing but the GET. *)
Theorem get_modes_fail_only_on_untyped_details {P} (id : string) (r : Remote P)
    (w : Workflow P) :
  stored r !! id = Some w →
  (getWorkflowHandler (mkGetArgs id ModeFull) r).1 = GetOk (FullResult w) ∧
  (getWorkflowHandler (mkGetArgs id ModeMinimal) r).1 =
    GetOk (MinimalResult (wf_id w) (wf_name w)) ∧
  (getWorkflowHandler (mkGetArgs id ModeStructure) r).1 =
    GetOk (StructureResult (wf_id w) (wf_name w) (outline <$> wf_nodes w)
             (wf_connections w)) ∧
  ((∃ result, (getWorkflowHandler (mkGetArgs id ModeDetails) r).1 = GetOk result) ↔
   Forall (λ n, is_Some (node_type n)) (wf_nodes w)) ∧
  ∀ mode, (getWorkflowHandler (mkGetArgs id mode) r).2 = fetched id r.
Proof.
  intros Hget. unfold getWorkflowHandler, getWorkflow. cbn [gw_id gw_mode].
  rewrite Hget. cbn [get_result fst]. split_and!; [done..| |].
  - destruct (details_trigger_nodes (wf_nodes w)) as [e|l] eqn:Hd; cbn [mbind throws_bind fst].
    + split; [by intros [? ?]|]. intros Hall.
      destruct (details_trigger_nodes_total _ Hall) as [l Hl]. congruence.
    + split; [|by eexists]. intros _. apply Forall_forall. intros n Hn.
      destruct (node_type n) as [t|] eqn:Hty; [by eexists|].
      exfalso. clear Hget. revert l Hd. unfold details_trigger_nodes.
      induction (wf_nodes w) as [|m nodes IH]; intros l; [by apply elem_of_nil in Hn|].
      rewrite for_each_cons. apply elem_of_cons in Hn as [->|Hn].
      * by rewrite Hty.
      * destruct (node_type m); [|done].
        destruct (for_each _ nodes) as [?|l'] eqn:Hf; [done|]. intros _. by eapply IH.
  - intros mode. by destruct (get_result mode w).
Qed.

Lemma get_modes_fail_only_on_untyped_details_witness :
  let w := Sample.graph [Sample.bare "a" "Start"] [] in
  let r := Sample.remote w in
  (getWorkflowHandler (mkGetArgs "wf1" ModeStructure) r).1 =
    GetOk (StructureResult (Some "wf1") (Some "Sample")
             [mkOutline (Some "a") (Some "Start") None None None] []) ∧
  (getWorkflowHandler (mkGetArgs "wf1" ModeDetails) r).1 =
    GetError "Error getting workflow: Cannot read properties of undefined (reading 'includes')".
Proof.
  intros w r.
  destruct (get_modes_fail_only_on_untyped_details "wf1" r w eq_refl) as (_ & _ & H & _).
  split; [exact H|reflexivity].
Defined.

(** X19.  For a stored workflow the test handler answers that there is
    no external trigger exactly when every node has a type and no type
    contains [Trigger], [Webhook], [Form] or [Chat].  The handler does
    nothing but the GET. *)
Theorem test_rejects_exactly_triggerless_workflows {P} (path_truthy : P → bool)
    (path_text : P → string) (host : option string) (args : TestWorkflowArgs)
    (r : Remote P) (w : Workflow P) :
  stored r !! tw_workflowId args = Some w →
  let run := testWorkflowHandler path_truthy path_text host args r in
  (run.1 = TestError (no_trigger_message (tw_workflowId args)) ↔
   Forall no_external_trigger (wf_nodes w)) ∧
  run.2 = fetched (tw_workflowId args) r.
Proof.
  intros Hget. cbn zeta. unfold testWorkflowHandler, getWorkflow. rewrite Hget.
  rewrite <- find_trigger_none.
  destruct (find_trigger (wf_nodes w)) as [e|[[n t]|]]; cbn [fst snd].
  - split; [|done]. split; [|done]. intros H. exfalso. discriminate H.
  - split; [|done]. split; done.
  - split; [|done]. split; done.
Qed.

Lemma test_rejects_exactly_triggerless_workflows_witness :
  let w := Sample.graph [Sample.node "a" "Set" "n8n-nodes-base.set"] [] in
  let run := testWorkflowHandler Sample.has_path MoreSamples.path_text None
               (mkTestArgs "wf1" None None None None) (Sample.remote w) in
  Forall no_external_trigger (wf_nodes w) ∧ run.2 = fetched "wf1" (Sample.remote w).
Proof.
  intros w.
  destruct (test_rejects_exactly_triggerless_workflows Sample.has_path MoreSamples.path_text None
              (mkTestArgs "wf1" None None None None) (Sample.remote w) w eq_refl)
    as [[H _] H2].
  split; [|exact H2]. apply H. reflexivity.
Defined.

(** X20.  When no [triggerType] is given and the first node that
    qualifies as a trigger has [Webhook] in its type, or [Trigger] without
    [Form] and [Chat], the handler prepares a webhook test: the trigger
    node is that node, the URL is the host, [/webhook/] and the path of the
    node or else the workflow id, the method is [httpMethod] or else POST;
    the message is the fixed text and there is no session id. *)
Theorem test_defaults_to_webhook {P} (path_truthy : P → bool) (path_text : P → string)
    (host : option string) (args : TestWorkflowArgs) (r : Remote P) (w : Workflow P)
    (pre post : list (WorkflowNode P)) (n : WorkflowNode P) (t : string) :
  stored r !! tw_workflowId args = Some w →
  wf_nodes w = pre ++ n :: post →
  Forall no_external_trigger pre →
  node_type n = Some t →
  contains t "Webhook" ∨
    (contains t "Trigger" ∧ ¬ contains t "Form" ∧ ¬ contains t "Chat") →
  Js.truthy_string (tw_triggerType args) = false →
  ∃ info note,
    (testWorkflowHandler path_truthy path_text host args r).1 = TestPrepared info note ∧
    ti_triggerNode info = node_name n ∧
    ti_triggerType info = "webhook" ∧
    ti_webhookUrl info =
      Some (Js.template host +:+ "/webhook/" +:+
            webhook_path path_truthy path_text n (tw_workflowId args)) ∧
    ti_method info = Some (default "POST" (Js.or_else (tw_httpMethod args) None)) ∧
    ti_message info = Some (prepared_message w) ∧
    ti_sessionId info = None.
Proof.
  intros Hget Hnodes Hpre Hty Hmark Harg.
  unfold testWorkflowHandler, getWorkflow. rewrite Hget, Hnodes.
  rewrite (find_trigger_first pre post n t Hpre Hty).
  2:{ unfold is_external_trigger_type.
      destruct Hmark as [H%includes_contains|[H%includes_contains _]]; rewrite H;
        by rewrite ?orb_true_r. }
  cbn [fst]. eexists _, _. split; [done|].
  assert (Hdet : detected_trigger_type t = "webhook").
  { unfold detected_trigger_type.
    destruct (Js.includes t "Webhook") eqn:Hw; [done|].
    destruct Hmark as [Hc%includes_contains|(_ & Hform & Hchat)]; [congruence|].
    destruct (Js.includes t "Form") eqn:Hf; [by apply includes_contains in Hf|].
    destruct (Js.includes t "Chat") eqn:Hc; [by apply includes_contains in Hc|done]. }
  unfold trigger_info. rewrite Harg, Hdet.
  change (String.eqb "webhook" "webhook") with true. cbn iota.
  cbn [set_message ti_triggerNode ti_triggerType ti_webhookUrl ti_method ti_message
       ti_sessionId ti_workflowId ti_workflowName].
  split_and!; try done.
  unfold Js.or_else. by destruct (tw_httpMethod args) as [[|a s]|].
Qed.

Lemma test_defaults_to_webhook_witness :
  let manual := Sample.node "a" "Start" "n8n-nodes-base.manualTrigger" in
  let w := Sample.graph [Sample.node "s" "Set" "n8n-nodes-base.set"; manual] [] in
  ∃ info note,
    (testWorkflowHandler Sample.has_path MoreSamples.path_text (Some "https://n8n.example")
       (mkTestArgs "wf1" None None (Some "hello") None) (Sample.remote w)).1 =
      TestPrepared info note ∧
    ti_triggerNode info = Some "Start" ∧
    ti_triggerType info = "webhook" ∧
    ti_webhookUrl info = Some "https://n8n.example/webhook/wf1" ∧
    ti_method info = Some "POST".
Proof.
  intros manual w.
  destruct (test_defaults_to_webhook Sample.has_path MoreSamples.path_text
              (Some "https://n8n.example") (mkTestArgs "wf1" None None (Some "hello") None)
              (Sample.remote w) w [Sample.node "s" "Set" "n8n-nodes-base.set"] [] manual
              "n8n-nodes-base.manualTrigger")
    as (info & note & H1 & H2 & H3 & H4 & H5 & _).
  - reflexivity.
  - reflexivity.
  - apply find_trigger_none. reflexivity.
  - reflexivity.
  - right. split_and!.
    + apply includes_contains. reflexivity.
    + intros H%includes_contains. discriminate H.
    + intros H%includes_contains. discriminate H.
  - reflexivity.
  - exists info, note. split_and!; [exact H1|exact H2|exact H3|exact H4|exact H5].
Defined.

(** X21.  With the trigger type [chat] the prepared test carries the
    session id of the request, but not its message: the message of the
    response is the fixed text about the workflow.  No URL and no method
    are given. *)
Theorem test_chat_drops_the_message {P} (path_truthy : P → bool) (path_text : P → string)
    (host : option string) (args : TestWorkflowArgs) (r : Remote P) (w : Workflow P)
    (n : WorkflowNode P) (t : string) :
  stored r !! tw_workflowId args = Some w →
  find_trigger (wf_nodes w) = inr (Some (n, t)) →
  tw_triggerType args = Some "chat" →
  ∃ info note,
    (testWorkflowHandler path_truthy path_text host args r).1 = TestPrepared info note ∧
    ti_triggerType info = "chat" ∧
    ti_sessionId info = tw_sessionId args ∧
    ti_message info = Some (prepared_message w) ∧
    ti_webhookUrl info = None ∧
    ti_method info = None.
Proof.
  intros Hget Hfind Hty. unfold testWorkflowHandler, getWorkflow.
  rewrite Hget, Hfind. cbn [fst]. eexists _, _. split; [done|].
  unfold trigger_info. rewrite Hty. by cbn.
Qed.

Lemma test_chat_drops_the_message_witness :
  let chat := Sample.node "a" "Chat" "@n8n/n8n-nodes-langchain.chatTrigger" in
  let w := Sample.graph [chat] [] in
  ∃ info note,
    (testWorkflowHandler Sample.has_path MoreSamples.path_text None
       (mkTestArgs "wf1" (Some "chat") None (Some "hello") (Some "s1")) (Sample.remote w)).1 =
      TestPrepared info note ∧
    ti_sessionId info = Some "s1" ∧
    ti_message info =
      Some ("Test execution prepared for workflow " +:+ Js.dquote +:+ "Sample" +:+ Js.dquote).
Proof.
  intros chat w.
  destruct (test_chat_drops_the_message Sample.has_path MoreSamples.path_text None
              (mkTestArgs "wf1" (Some "chat") None (Some "hello") (Some "s1"))
              (Sample.remote w) w chat "@n8n/n8n-nodes-langchain.chatTrigger"
              eq_refl eq_refl eq_refl)
    as (info & note & H1 & _ & H3 & H4 & _).
  exists info, note. split_and!; [exact H1|exact H3|exact H4].
Defined.

(** X22.  The versions handler calls the API client at most once, and
    only in the modes [list], [get] and [rollback] with a non-empty
    [workflowId].  The mode [truncate] reports success only when
    [confirmTruncate] is true, and without any call; the modes [delete] and
    [prune] answer that they are not implemented, without any call. *)
Theorem versions_calls_are_guarded {Data} (answer : ClientCall → Throws Data)
    (show_number : Js.number → string) (args : VersionsArgs) :
  let run := workflowVersionsHandler answer show_number args in
  (length run.2 ≤ 1)%nat ∧
  (∀ c, c ∈ run.2 →
     Js.truthy_string (wv_workflowId args) = true ∧
     (wv_mode args = "list" ∨ wv_mode args = "get" ∨ wv_mode args = "rollback")) ∧
  (∀ message, run.1 = Truncated message →
     run.2 = [] ∧ wv_mode args = "truncate" ∧ wv_confirmTruncate args = Some true) ∧
  (wv_mode args = "delete" ∨ wv_mode args = "prune" →
     run = (VersionsError ("Mode " +:+ wv_mode args +:+ " not fully implemented yet"), [])).
Proof.
  cbn zeta. unfold workflowVersionsHandler, versions_call.
  destruct (String.eqb_spec (wv_mode args) "list") as [Hm|Hl];
    [|destruct (String.eqb_spec (wv_mode args) "get") as [Hm|Hg];
      [|destruct (String.eqb_spec (wv_mode args) "rollback") as [Hm|Hr];
        [|destruct (String.eqb_spec (wv_mode args) "truncate") as [Hm|Ht]]]];
    destruct (Js.truthy_string (wv_workflowId args)) eqn:Hid;
    destruct (wv_versionId args) as [v|];
    destruct (wv_confirmTruncate args) as [[|]|];
    repeat match goal with |- context [answer ?c] => destruct (answer c) end;
    cbn [fst snd length Js.truthy_bool];
    (split; [lia|]);
    (split; [intros c Hc; first [by apply elem_of_nil in Hc|by auto]|]);
    (split; [intros message Hmsg; first [discriminate Hmsg|by auto]|]);
    (intros [Hx|Hx]; first [congruence|done]).
Qed.

(** X23.  The executions handler calls the API client at most once.
    It deletes only under the action [delete], and only the non-empty id of
    the request; it reports a deletion only when the call of the client
    returned; [get] and [delete] without an id make no call. *)
Theorem executions_delete_is_guarded {Data} (answer : ClientCall → Throws Data)
    (args : ExecutionsArgs) :
  let run := executionsHandler answer args in
  (length run.2 ≤ 1)%nat ∧
  (∀ id, DeleteExecution id ∈ run.2 →
     ex_action args = "delete" ∧ ex_id args = Some id ∧ id ≠ EmptyString) ∧
  (∀ id message, run.1 = ExecutionDeleted id message →
     run.2 = [DeleteExecution id] ∧ ∃ d, answer (DeleteExecution id) = inr d) ∧
  (ex_action args = "get" ∨ ex_action args = "delete" →
   Js.truthy_string (ex_id args) = false → run.2 = []).
Proof.
  cbn zeta. unfold executionsHandler, executions_call.
  destruct (String.eqb_spec (ex_action args) "list") as [Hm|Hl];
    [|destruct (String.eqb_spec (ex_action args) "get") as [Hm|Hg];
      [|destruct (String.eqb_spec (ex_action args) "delete") as [Hm|Hd]]];
    destruct (Js.truthy_string (ex_id args)) eqn:Hid;
    try (apply truthy_string_present in Hid as (s & Hs & Hne); rewrite Hs; cbn [default]);
    repeat match goal with |- context [answer ?c] => destruct (answer c) eqn:? end;
    cbn [fst snd length];
    (split; [lia|]);
    (split; [intros id Hc;
             first [by apply elem_of_nil in Hc
                   |apply list_elem_of_singleton in Hc; first [discriminate Hc|by simplify_eq]]|]);
    (split; [intros id message Hmsg; first [discriminate Hmsg|simplify_eq; by eauto]|]);
    (intros [Hx|Hx] Hf; first [congruence|done]).
Qed.

(** ** The URLs of the API client *)

Section UrlFacts.

Lemma endsWith_cons (c : ascii) (s suffix : string) :
  Url.endsWith (String c s) suffix = String.eqb (String c s) suffix || Url.endsWith s suffix.
Proof. reflexivity. Qed.

Lemma endsWith_spec (s suffix : string) :
  Url.endsWith s suffix = true ↔ ∃ pre, s = pre +:+ suffix.
Proof.
  split.
  - induction s as [|c s IH].
    + change (String.eqb EmptyString suffix || false = true → ∃ pre, EmptyString = pre +:+ suffix).
      rewrite orb_false_r. intros <-%String.eqb_eq. by exists EmptyString.
    + rewrite endsWith_cons, orb_true_iff. intros [<-%String.eqb_eq|H].
      * by exists EmptyString.
      * destruct (IH H) as [pre ->]. by exists (String c pre).
  - intros [pre ->]. induction pre as [|c pre IH].
    + rewrite append_nil_l. destruct suffix as [|c s]; [done|].
      by rewrite endsWith_cons, String.eqb_refl.
    + by rewrite append_cons, endsWith_cons, IH, orb_true_r.
Qed.

Lemma strip_slash_cons2 (c d : ascii) (s : string) :
  Url.strip_slash (String c (String d s)) = String c (Url.strip_slash (String d s)).
Proof. reflexivity. Qed.

Lemma strip_slash_slash (s : string) : Url.strip_slash (s +:+ "/") = s.
Proof.
  induction s as [|c s IH]; [reflexivity|].
  rewrite append_cons. destruct s as [|d s].
  - reflexivity.
  - rewrite append_cons in *. by rewrite strip_slash_cons2, IH.
Qed.

Lemma endsWith_last (s : string) (c d : ascii) (suffix : string) :
  c ≠ d → Url.endsWith (s +:+ String c EmptyString) (suffix +:+ String d EmptyString) = false.
Proof.
  intros Hne. apply not_true_iff_false. intros [pre H]%endsWith_spec.
  rewrite <- append_assoc in H. revert H. generalize (pre +:+ suffix). clear pre suffix.
  induction s as [|x s IH]; intros [|y p] H; rewrite ?append_cons in H; simplify_eq/=.
  - destruct p; discriminate.
  - destruct s; discriminate.
  - by eapply IH.
Qed.

End UrlFacts.

(** X24.  The base URL the HTTP client is created with always ends with
    [/api/v1], and computing it from an URL that was already computed this
    way changes nothing. *)
Theorem apiUrl_ends_with_the_suffix (baseUrl : string) :
  (∃ host, Url.apiUrl baseUrl = host +:+ "/api/v1") ∧
  Url.apiUrl (Url.apiUrl baseUrl) = Url.apiUrl baseUrl.
Proof.
  assert (H : Url.endsWith (Url.apiUrl baseUrl) "/api/v1" = true).
  { unfold Url.apiUrl. destruct (Url.endsWith baseUrl "/api/v1") eqn:He; [done|].
    apply endsWith_spec. by eexists. }
  split; [by apply endsWith_spec|].
  unfold Url.apiUrl at 1. by rewrite H.
Qed.

(** X25.  A configured URL with a slash at its end loses that slash
    before the suffix is added.  A configured URL that already ends with
    [/api/v1/], the slash included, gets the suffix a second time. *)
Theorem apiUrl_drops_one_trailing_slash (host : string) :
  Url.apiUrl (host +:+ "/") = host +:+ "/api/v1" ∧
  Url.apiUrl (host +:+ "/api/v1/") = host +:+ "/api/v1/api/v1".
Proof.
  assert (H : ∀ s, Url.apiUrl (s +:+ "/") = s +:+ "/api/v1").
  { intros s. unfold Url.apiUrl.
    pose proof (endsWith_last s "/" "1" "/api/v") as He.
    change ("/api/v" +:+ "1") with "/api/v1" in He.
    rewrite He by done. by rewrite strip_slash_slash. }
  split; [apply H|].
  change (host +:+ "/api/v1/") with (host +:+ "/api/v1" +:+ "/").
  rewrite <- append_assoc, H. by rewrite append_assoc.
Qed.

Section HealthzFacts.

Lemma digits_to_end_cons (c : ascii) (s : string) :
  Healthz.digits_to_end (String c s) =
  if Healthz.is_digit c then Healthz.digits_to_end s
  else Ascii.eqb c "/" && String.eqb s EmptyString.
Proof. reflexivity. Qed.

(** Digits, and perhaps one slash after them. *)
Lemma digits_to_end_digits (ds : string) (slash : bool) :
  all_chars Healthz.is_digit ds = true →
  Healthz.digits_to_end (ds +:+ (if slash then "/" else EmptyString)) = true.
Proof.
  induction ds as [|d ds IH]; intros Hd; [by destruct slash|].
  cbn [all_chars] in Hd. apply andb_true_iff in Hd as [Hd Hds].
  by rewrite append_cons, digits_to_end_cons, Hd, IH.
Qed.

(** No match can run over the letters of a later [/api/v]. *)
Lemma digits_to_end_blocked (y z : string) :
  Healthz.digits_to_end (y +:+ String "/" (String "a" z)) = false.
Proof.
  induction y as [|c y IH]; [done|].
  rewrite append_cons, digits_to_end_cons.
  destruct (Healthz.is_digit c); [done|].
  destruct y; cbn; by rewrite andb_false_r.
Qed.

Lemma suffix_here_eqb (s : string) :
  Healthz.suffix_here s =
  match s with
  | String c1 (String c2 (String c3 (String c4 (String c5 (String c6 (String d rest)))))) =>
      Ascii.eqb c1 "/" && Ascii.eqb c2 "a" && Ascii.eqb c3 "p" && Ascii.eqb c4 "i" &&
      Ascii.eqb c5 "/" && Ascii.eqb c6 "v" && (Healthz.is_digit d && Healthz.digits_to_end rest)
  | _ => false
  end.
Proof.
  destruct s as [|c1 s]; [done|].
  destruct (Ascii.eqb_spec c1 "/") as [->|H1];
    [|by destruct c1 as [[] [] [] [] [] [] [] []], s as [|? [|? [|? [|? [|? [|? ?]]]]]]].
  destruct s as [|c2 s]; [done|].
  destruct (Ascii.eqb_spec c2 "a") as [->|H2];
    [|by destruct c2 as [[] [] [] [] [] [] [] []], s as [|? [|? [|? [|? [|? ?]]]]]].
  destruct s as [|c3 s]; [done|].
  destruct (Ascii.eqb_spec c3 "p") as [->|H3];
    [|by destruct c3 as [[] [] [] [] [] [] [] []], s as [|? [|? [|? [|? ?]]]]].
  destruct s as [|c4 s]; [done|].
  destruct (Ascii.eqb_spec c4 "i") as [->|H4];
    [|by destruct c4 as [[] [] [] [] [] [] [] []], s as [|? [|? [|? ?]]]].
  destruct s as [|c5 s]; [done|].
  destruct (Ascii.eqb_spec c5 "/") as [->|H5];
    [|by destruct c5 as [[] [] [] [] [] [] [] []], s as [|? [|? ?]]].
  destruct s as [|c6 s]; [done|].
  destruct (Ascii.eqb_spec c6 "v") as [->|H6];
    [|by destruct c6 as [[] [] [] [] [] [] [] []], s as [|? ?]].
  by destruct s.
Qed.

End HealthzFacts.

Section HealthzStrip.

Lemma strip_api_eq (s : string) :
  Healthz.strip_api s =
  if Healthz.suffix_here s then EmptyString
  else match s with
       | EmptyString => EmptyString
       | String c s' => String c (Healthz.strip_api s')
       end.
Proof. by destruct s. Qed.

(** The pattern cannot match earlier than the last [/api/v]. *)
Lemma suffix_here_early (c : ascii) (h tail : string) :
  Healthz.suffix_here (String c (h +:+ "/api/v" +:+ tail)) = false.
Proof.
  rewrite suffix_here_eqb.
  destruct h as [|c2 [|c3 [|c4 [|c5 [|c6 [|c7 h]]]]]];
    repeat rewrite append_cons;
    try (change (EmptyString +:+ "/api/v" +:+ tail)
           with (String "/" (String "a" (String "p" (String "i" (String "/"
                   (String "v" tail)))))));
    try (by repeat match goal with
            | |- context [Ascii.eqb ?x _] => is_var x; destruct (Ascii.eqb x _)
            end).
  change (h +:+ "/api/v" +:+ tail)
    with (h +:+ String "/" (String "a" ("pi/v" +:+ tail))).
  by rewrite digits_to_end_blocked, !andb_false_r.
Qed.

Lemma strip_api_suffix (h ds : string) (slash : bool) :
  ds ≠ EmptyString → all_chars Healthz.is_digit ds = true →
  Healthz.strip_api (h +:+ "/api/v" +:+ ds +:+ (if slash then "/" else EmptyString)) = h.
Proof.
  intros Hne Hds. induction h as [|c h IH].
  - destruct ds as [|d ds]; [done|]. cbn [all_chars] in Hds.
    apply andb_true_iff in Hds as [Hd Hds].
    rewrite strip_api_eq.
    change (Healthz.suffix_here (EmptyString +:+ "/api/v" +:+ String d ds +:+ _))
      with (Healthz.is_digit d &&
            Healthz.digits_to_end (ds +:+ (if slash then "/" else EmptyString))).
    by rewrite Hd, digits_to_end_digits.
  - rewrite append_cons, strip_api_eq, suffix_here_early. by rewrite IH.
Qed.

End HealthzStrip.

(** X26.  The health URL does not depend on the API suffix: from a
    configured URL made of a host, [/api/v] and a version number, with or
    without a final slash, it is the host without one trailing slash,
    followed by [/healthz]. *)
Theorem healthz_url_ignores_the_api_suffix (host ds : string) (slash : bool) :
  ds ≠ EmptyString → all_chars Healthz.is_digit ds = true →
  Healthz.healthzUrl (host +:+ "/api/v" +:+ ds +:+ (if slash then "/" else EmptyString)) =
  Url.strip_slash host +:+ "/healthz".
Proof.
  intros Hne Hds. unfold Healthz.healthzUrl. by rewrite strip_api_suffix.
Qed.

Lemma healthz_url_ignores_the_api_suffix_witness :
  Healthz.healthzUrl "https://n8n.example.com/api/v1/" = "https://n8n.example.com/healthz".
Proof.
  exact (healthz_url_ignores_the_api_suffix "https://n8n.example.com" "1" true
           ltac:(discriminate) eq_refl).
Defined.
